(** * devdocs-indexer: URL discovery and markdown chunking

    A shallow embedding of [src/scrapers/base.py] (class [BaseScraper]) and
    [src/utils/chunker.py] (class [SmartChunker]), with the properties the
    specification states about them; and of the code around them: the site
    scrapers' [discover_urls], the fetch functions of [src/utils/crawl.py]
    and the chunk identifiers of [src/core/indexer.py].

    A Python [str] is modelled by [string]: a character of the string is a
    code point below 256, so the texts of the model are the Python texts
    over Latin-1, and lengths, indices and slices count code points.  On
    this range the character classes are Python's: [str.isspace],
    [str.strip] and the regular expression class [\s] take the code points
    9 to 13, 28 to 32, 133 and 160; [str.lower] maps [A-Z] and the capital
    letters 192 to 222 (but 215, the multiplication sign).
    Python [int] is [Z], [dict] is [gmap], [set] is [gset], [list] is [list]. *)

From Stdlib Require Import ZArith Ascii String Sorted.
From stdpp Require Import base option list gmap sets strings pretty.

Local Open Scope string_scope.
Local Open Scope list_scope.
Local Open Scope Z_scope.

(** ** Python string operations *)

Module PyStr.

(** [s.startswith(p)] *)
Fixpoint startswith (s p : string) {struct p} : bool :=
  match p, s with
  | EmptyString, _ => true
  | String _ _, EmptyString => false
  | String a p', String b s' => Ascii.eqb a b && startswith s' p'
  end.

(** [p in s]: [p] occurs in [s] as a contiguous substring. *)
Fixpoint contains (p s : string) : bool :=
  startswith s p ||
  match s with
  | EmptyString => false
  | String _ s' => contains p s'
  end.

(** [s.endswith(p)], used to spell out what a suffix test would be. *)
Fixpoint endswith (s p : string) : bool :=
  String.eqb s p ||
  match s with
  | EmptyString => false
  | String _ s' => endswith s' p
  end.

(** [c.lower()] on one character: [A-Z] to [a-z], and the capital letters
    of Latin-1 (192 to 222 but 215) to their small forms, 32 further on. *)
Definition lower_char (c : ascii) : ascii :=
  let n := nat_of_ascii c in
  if (((65 <=? n) && (n <=? 90)) ||
      ((192 <=? n) && (n <=? 222) && negb (n =? 215)))%nat
  then ascii_of_nat (n + 32) else c.

(** [s.lower()] *)
Fixpoint lower (s : string) : string :=
  match s with
  | EmptyString => EmptyString
  | String c s' => String (lower_char c) (lower s')
  end.

(** [s.split(sep)[0]] for a one-character separator: the text before the
    first occurrence of [sep], the whole of [s] when there is none. *)
Fixpoint split_first (sep : ascii) (s : string) : string :=
  match s with
  | EmptyString => EmptyString
  | String c s' => if Ascii.eqb c sep then EmptyString else String c (split_first sep s')
  end.

(** [s.rstrip(chars)] for a character class given as a predicate: every
    trailing character of the class is removed. *)
Fixpoint rstrip_by (p : ascii -> bool) (s : string) : string :=
  match s with
  | EmptyString => EmptyString
  | String c s' =>
      match rstrip_by p s' with
      | EmptyString => if p c then EmptyString else String c EmptyString
      | r => String c r
      end
  end.

(** [s.lstrip(chars)] for a character class given as a predicate. *)
Fixpoint lstrip_by (p : ascii -> bool) (s : string) : string :=
  match s with
  | EmptyString => EmptyString
  | String c s' => if p c then lstrip_by p s' else s
  end.

(** [s.rstrip(c)] for the one-character class [c]. *)
Definition rstrip_char (c : ascii) (s : string) : string :=
  rstrip_by (Ascii.eqb c) s.

(** [str.isspace] on one character, which is also the class [\s] of [re]
    and what [str.strip] removes: tab, line feed, vertical tab, form feed,
    carriage return, the four separators 0x1c-0x1f, space, next line
    (U+0085) and no-break space (U+00A0). *)
Definition isspace (c : ascii) : bool :=
  let n := nat_of_ascii c in
  (((9 <=? n) && (n <=? 13)) || ((28 <=? n) && (n <=? 32)) ||
   (n =? 133) || (n =? 160))%nat.

(** Every character of [s] is in the class [p]. *)
Fixpoint all_chars (p : ascii -> bool) (s : string) : bool :=
  match s with
  | EmptyString => true
  | String c s' => p c && all_chars p s'
  end.

(** [s.strip()] *)
Definition strip (s : string) : string :=
  rstrip_by isspace (lstrip_by isspace s).

(** The line feed character, Python's ["\n"]. *)
Definition LF : ascii := ascii_of_nat 10.

(** The next-line character U+0085 and the no-break space U+00A0: the
    whitespace of the model that is not in ASCII. *)
Definition NEL : ascii := ascii_of_nat 133.
Definition NBSP : ascii := ascii_of_nat 160.

(** [s.split(sep)] for a one-character separator: never empty, one more
    piece than there are separators. *)
Fixpoint split (sep : ascii) (s : string) : list string :=
  match s with
  | EmptyString => [EmptyString]
  | String c s' =>
      if Ascii.eqb c sep then EmptyString :: split sep s'
      else match split sep s' with
           | [] => [String c EmptyString]
           | piece :: pieces => String c piece :: pieces
           end
  end.

(** [sep.join(l)] for a one-character separator. *)
Fixpoint join (sep : ascii) (l : list string) : string :=
  match l with
  | [] => EmptyString
  | [x] => x
  | x :: rest => x +:+ String sep (join sep rest)
  end.

(** Removal of one trailing [c], if there is one: what "a single trailing
    slash is removed" would mean taken literally. *)
Fixpoint remove_one_trailing (c : ascii) (s : string) : string :=
  match s with
  | EmptyString => EmptyString
  | String a EmptyString => if Ascii.eqb a c then EmptyString else s
  | String a s' => String a (remove_one_trailing c s')
  end.

End PyStr.

(** ** Exceptions

    A Python call either returns a value or raises; [try ... except
    Exception] is [catch]. *)

Inductive outcome (A : Type) : Type :=
  | Returned (a : A)
  | Raised (e : string).
Arguments Returned {A} a.
Arguments Raised {A} e.

#[global] Instance outcome_ret : MRet outcome := fun A a => Returned a.

#[global] Instance outcome_bind : MBind outcome := fun A B k m =>
  match m with
  | Returned a => k a
  | Raised e => Raised e
  end.

Definition catch {A : Type} (m : outcome A) (handler : string -> A) : A :=
  match m with
  | Returned a => a
  | Raised e => handler e
  end.

(** ** A model of [urllib.parse]

    [normalize_url] calls [urlparse] and [urljoin] of the Python standard
    library, which return or raise [ValueError].  The scraper below takes
    both as parameters ([UrlLib]); this module gives the instance used to
    evaluate it on concrete URLs.  It follows CPython 3.11's [urlsplit],
    [urlparse], [urlunparse] and [urljoin], with the checks of a bracketed
    host ([_check_bracketed_netloc], [ipaddress.ip_address]).
    [_checknetloc] is left out: it raises when the NFKC form of the host
    holds one of [/?#@:] that the host does not, which no text over Latin-1
    does. *)

Module Urllib.
Import PyStr.

Record ParseResult := {
  scheme : string; netloc : string; path : string;
  params : string; query : string; fragment : string }.

Definition uses_relative : list string :=
  [""; "ftp"; "http"; "gopher"; "nntp"; "imap"; "wais"; "file"; "https";
   "shttp"; "mms"; "prospero"; "rtsp"; "rtspu"; "sftp"; "svn"; "svn+ssh";
   "ws"; "wss"].

Definition uses_netloc : list string :=
  [""; "ftp"; "http"; "gopher"; "nntp"; "telnet"; "imap"; "wais"; "file";
   "mms"; "https"; "shttp"; "snews"; "prospero"; "rtsp"; "rtspu"; "rsync";
   "svn"; "svn+ssh"; "sftp"; "nfs"; "git"; "git+ssh"; "ws"; "wss"].

Definition uses_params : list string :=
  [""; "ftp"; "hdl"; "prospero"; "http"; "imap"; "https"; "shttp"; "rtsp";
   "rtspu"; "sip"; "sips"; "mms"; "sftp"; "tel"].

Definition mem (x : string) (l : list string) : bool :=
  existsb (String.eqb x) l.

Definition is_alpha (c : ascii) : bool :=
  let n := nat_of_ascii c in
  (((65 <=? n) && (n <=? 90)) || ((97 <=? n) && (n <=? 122)))%nat.

Definition is_digit (c : ascii) : bool :=
  let n := nat_of_ascii c in ((48 <=? n) && (n <=? 57))%nat.

(** [scheme_chars]: letters, digits, [+], [-] and [.]. *)
Definition scheme_char (c : ascii) : bool :=
  is_alpha c || is_digit c ||
  Ascii.eqb c "+" || Ascii.eqb c "-" || Ascii.eqb c ".".

Fixpoint remove_chars (p : ascii -> bool) (s : string) : string :=
  match s with
  | EmptyString => EmptyString
  | String c s' => if p c then remove_chars p s' else String c (remove_chars p s')
  end.

(** [s.partition(sep)] for a class of separators: the text before the
    first separator, and from the separator on ([None] when absent). *)
Fixpoint break_at (p : ascii -> bool) (s : string) : string * option string :=
  match s with
  | EmptyString => (EmptyString, None)
  | String c s' =>
      if p c then (EmptyString, Some s)
      else let '(a, b) := break_at p s' in (String c a, b)
  end.

Definition tail (s : string) : string :=
  match s with EmptyString => EmptyString | String _ s' => s' end.

(** [url.split(sep, 1)] when [sep] occurs: (before, after). *)
Definition split_once (sep : ascii) (s : string) : string * string :=
  match break_at (Ascii.eqb sep) s with
  | (a, Some b) => (a, tail b)
  | (a, None) => (a, EmptyString)
  end.

Definition c0_control_or_space (c : ascii) : bool :=
  (nat_of_ascii c <=? 32)%nat.

Definition unsafe_byte (c : ascii) : bool :=
  let n := nat_of_ascii c in ((n =? 9) || (n =? 10) || (n =? 13))%nat.

Definition sanitize (url : string) : string :=
  remove_chars unsafe_byte (lstrip_by c0_control_or_space url).

Definition netloc_delim (c : ascii) : bool :=
  Ascii.eqb c "/" || Ascii.eqb c "?" || Ascii.eqb c "#".

Definition nonempty (s : string) : bool :=
  match s with EmptyString => false | _ => true end.

Definition ValueError {A : Type} : outcome A := Raised "ValueError".

(** [s.rpartition(sep)[2]]: the text after the last [sep], the whole of
    [s] when there is none. *)
Fixpoint after_last (sep : ascii) (s : string) : string :=
  match s with
  | EmptyString => EmptyString
  | String c s' =>
      if contains (String sep "") s' then after_last sep s'
      else if Ascii.eqb c sep then s' else s
  end.

Definition is_hex_digit (c : ascii) : bool :=
  let n := nat_of_ascii c in
  (((48 <=? n) && (n <=? 57)) || ((65 <=? n) && (n <=? 70)) ||
   ((97 <=? n) && (n <=? 102)))%nat.

(** [int(s, 10)] for a text of decimal digits. *)
Definition decimal (s : string) : N :=
  fold_left (fun n c => (10 * n + (N_of_ascii c - 48))%N) (list_ascii_of_string s) 0%N.

(** [IPv4Address._parse_octet] returns for the text. *)
Definition octet_ok (octet_str : string) : bool :=
  if negb (nonempty octet_str) then false
  else if negb (all_chars is_digit octet_str) then false
  else if (3 <? String.length octet_str)%nat then false
  else if negb (String.eqb octet_str "0") && startswith octet_str "0" then false
  else (decimal octet_str <=? 255)%N.

(** [IPv4Address(s)] returns for the text. *)
Definition ipv4_ok (s : string) : bool :=
  if contains "/" s then false
  else if negb (nonempty s) then false
  else
    let octets := split "." s in
    if negb (length octets =? 4)%nat then false
    else forallb octet_ok octets.

(** [IPv6Address._parse_hextet] returns for the text; [int("", 16)]
    raises. *)
Definition hextet_ok (hextet_str : string) : bool :=
  all_chars is_hex_digit hextet_str &&
  (String.length hextet_str <=? 4)%nat &&
  nonempty hextet_str.

(** The indices from 1 to [len(parts) - 2] at which [parts] holds an empty
    text: where a [::] stands. *)
Definition empty_middle (parts : list string) : list nat :=
  filter (fun i => nonempty (nth i parts EmptyString) = false)
         (seq 1 (length parts - 2)).

(** [IPv6Address._ip_int_from_string] returns for the text.  For the check
    the two hextets that stand for an IPv4 suffix need not be computed:
    they are hextets whatever the address. *)
Definition ipv6_address_ok (ip_str : string) : bool :=
  nonempty ip_str &&
  let parts := split ":" ip_str in
  (3 <=? length parts)%nat &&
  let last_part := List.last parts EmptyString in
  (if contains "." last_part then ipv4_ok last_part else true) &&
  let parts :=
    if contains "." last_part then removelast parts ++ ["0"; "0"] else parts in
  (length parts <=? 9)%nat &&
  let first_empty := negb (nonempty (nth 0 parts EmptyString)) in
  let last_empty := negb (nonempty (List.last parts EmptyString)) in
  match empty_middle parts with
  | [] =>
      (length parts =? 8)%nat && negb first_empty && negb last_empty &&
      forallb hextet_ok parts
  | [skip_index] =>
      let parts_hi := if first_empty then (skip_index - 1)%nat else skip_index in
      let parts_lo := (length parts - skip_index - 1)%nat in
      let parts_lo := if last_empty then (parts_lo - 1)%nat else parts_lo in
      (if first_empty then (parts_hi =? 0)%nat else true) &&
      (if last_empty then (parts_lo =? 0)%nat else true) &&
      (parts_hi + parts_lo <=? 7)%nat &&
      forallb hextet_ok (firstn parts_hi parts) &&
      forallb hextet_ok (skipn (length parts - parts_lo) parts)
  | _ => false
  end.

(** [IPv6Address(s)] returns for the text: no slash, a scope identifier
    after [%] that is not empty and holds no further [%]. *)
Definition ipv6_ok (s : string) : bool :=
  negb (contains "/" s) &&
  match break_at (Ascii.eqb "%") s with
  | (addr, Some scoped) =>
      let scope_id := tail scoped in
      nonempty scope_id && negb (contains "%" scope_id) && ipv6_address_ok addr
  | (addr, None) => ipv6_address_ok addr
  end.

(** [re.match(r"\Av[a-fA-F0-9]+\..+\Z", hostname)] *)
Definition ipvfuture_ok (hostname : string) : bool :=
  match hostname with
  | String "v" rest =>
      match break_at (fun c => negb (is_hex_digit c)) rest with
      | (String _ _, Some (String "." (String c more))) =>
          negb (contains (String LF "") (String c more))
      | _ => false
      end
  | _ => false
  end.

(** [_check_bracketed_host] *)
Definition check_bracketed_host (hostname : string) : outcome unit :=
  if startswith hostname "v" then
    if ipvfuture_ok hostname then Returned tt else ValueError
  else if ipv4_ok hostname then ValueError
  else if ipv6_ok hostname then Returned tt
  else ValueError.

(** [_check_bracketed_netloc] *)
Definition check_bracketed_netloc (netloc : string) : outcome unit :=
  let hostname_and_port := after_last "@" netloc in
  match break_at (Ascii.eqb "[") hostname_and_port with
  | (before_bracket, Some from_bracket) =>
      if nonempty before_bracket then ValueError
      else
        let '(hostname, port) := split_once "]" (tail from_bracket) in
        if nonempty port && negb (startswith port ":") then ValueError
        else check_bracketed_host hostname
  | (_, None) =>
      let '(hostname, _) := split_once ":" hostname_and_port in
      check_bracketed_host hostname
  end.

(** The checks of [urlsplit] on the host part. *)
Definition check_netloc (netloc : string) : outcome unit :=
  let opens := contains "[" netloc in
  let closes := contains "]" netloc in
  if (opens && negb closes) || (closes && negb opens) then ValueError
  else if opens && closes then check_bracketed_netloc netloc
  else Returned tt.

(** [urlsplit(url, scheme)]: (scheme, netloc, path, query, fragment). *)
Definition urlsplit (url default_scheme : string)
  : outcome (string * string * string * string * string) :=
  let url := sanitize url in
  let default_scheme :=
    remove_chars unsafe_byte
      (rstrip_by c0_control_or_space (lstrip_by c0_control_or_space default_scheme)) in
  let '(sch, url) :=
    match break_at (Ascii.eqb ":") url with
    | (String c pre, Some rest) =>
        if is_alpha c && all_chars scheme_char (String c pre)
        then (lower (String c pre), tail rest)
        else (default_scheme, url)
    | _ => (default_scheme, url)
    end in
  let '(loc, url) :=
    if startswith url "//" then
      match break_at netloc_delim (tail (tail url)) with
      | (a, Some b) => (a, b)
      | (a, None) => (a, EmptyString)
      end
    else (EmptyString, url) in
  _ ← check_netloc loc;
  let '(url, frag) := split_once "#" url in
  let '(url, qry) := split_once "?" url in
  Returned (sch, loc, url, qry, frag).

(** [_splitparams]: the parameters follow the first [;] of the last path
    segment. *)
Definition splitparams (url : string) : string * string :=
  let segs := split "/" url in
  match reverse segs with
  | [] => (url, EmptyString)
  | last_seg :: before =>
      match break_at (Ascii.eqb ";") last_seg with
      | (a, Some b) => (join "/" (reverse (a :: before)), tail b)
      | (_, None) => (url, EmptyString)
      end
  end.

Definition urlparse_with (url default_scheme : string) : outcome ParseResult :=
  '(sch, loc, p, qry, frag) ← urlsplit url default_scheme;
  let '(p, prm) :=
    if mem sch uses_params && contains ";" p then splitparams p
    else (p, EmptyString) in
  Returned {| scheme := sch; netloc := loc; path := p;
              params := prm; query := qry; fragment := frag |}.

(** [urlparse(url)] *)
Definition urlparse (url : string) : outcome ParseResult :=
  urlparse_with url EmptyString.

(** [urlunparse] *)
Definition urlunparse (r : ParseResult) : string :=
  let url := if nonempty (params r) then path r +:+ ";" +:+ params r else path r in
  let url :=
    if nonempty (netloc r) ||
       (nonempty (scheme r) && mem (scheme r) uses_netloc && negb (startswith url "//"))
    then "//" +:+ netloc r +:+
         (if nonempty url && negb (startswith url "/") then "/" +:+ url else url)
    else url in
  let url := if nonempty (scheme r) then scheme r +:+ ":" +:+ url else url in
  let url := if nonempty (query r) then url +:+ "?" +:+ query r else url in
  if nonempty (fragment r) then url +:+ "#" +:+ fragment r else url.

(** The loop of [urljoin] over the path segments: [..] drops the last
    resolved segment (if any), [.] is skipped. *)
Fixpoint resolve_segments (segments resolved : list string) : list string :=
  match segments with
  | [] => resolved
  | seg :: rest =>
      if String.eqb seg ".." then resolve_segments rest (removelast resolved)
      else if String.eqb seg "." then resolve_segments rest resolved
      else resolve_segments rest (resolved ++ [seg])
  end.

(** [segments[1:-1] = filter(None, segments[1:-1])] *)
Definition drop_empty_middle (segments : list string) : list string :=
  match segments with
  | first :: (_ :: _) as rest =>
      first :: filter (fun s => nonempty s = true) (removelast rest) ++ [List.last rest EmptyString]
  | _ => segments
  end.

(** [urljoin(base, url)] *)
Definition urljoin (base url : string) : outcome string :=
  if negb (nonempty base) then Returned url
  else if negb (nonempty url) then Returned base
  else
    b ← urlparse base;
    u ← urlparse_with url (scheme b);
    Returned (
    if negb (String.eqb (scheme u) (scheme b)) || negb (mem (scheme u) uses_relative)
    then url
    else if mem (scheme u) uses_netloc && nonempty (netloc u)
    then urlunparse u
    else
      let loc := if mem (scheme u) uses_netloc then netloc b else netloc u in
      if negb (nonempty (path u)) && negb (nonempty (params u)) then
        urlunparse {| scheme := scheme u; netloc := loc; path := path b;
                      params := params b;
                      query := if nonempty (query u) then query u else query b;
                      fragment := fragment u |}
      else
        let base_parts := split "/" (path b) in
        let base_parts :=
          if nonempty (List.last base_parts EmptyString)
          then removelast base_parts else base_parts in
        let segments :=
          if startswith (path u) "/" then split "/" (path u)
          else drop_empty_middle (base_parts ++ split "/" (path u)) in
        let resolved := resolve_segments segments [] in
        let resolved :=
          if mem (List.last segments EmptyString) ["."; ".."]
          then resolved ++ [EmptyString] else resolved in
        let joined := join "/" resolved in
        urlunparse {| scheme := scheme u; netloc := loc;
                      path := if nonempty joined then joined else "/";
                      params := params u; query := query u;
                      fragment := fragment u |}).

End Urllib.

(** ** [src/scrapers/base.py] *)

(** What the scraper takes from [urllib.parse]; both functions return or
    raise. *)
Record UrlLib := {
  urlparse : string -> outcome Urllib.ParseResult;
  urljoin : string -> string -> outcome string }.

Definition python_urllib : UrlLib :=
  {| urlparse := Urllib.urlparse; urljoin := Urllib.urljoin |}.

(** What the scraper takes from the network and from BeautifulSoup:
    [fetch_url(url)], [BeautifulSoup(html, "lxml")], [soup.select_one(sel)]
    and the [href] values of [soup.find_all("a", href=True)].  Each may
    raise. *)
Record Web := {
  Soup : Type;
  fetch_url : string -> outcome string;
  BeautifulSoup : string -> outcome Soup;
  select_one : Soup -> string -> outcome (option Soup);
  find_all_href : Soup -> outcome (list string) }.

(** The fields of a [BaseScraper] instance that the methods below read. *)
Record BaseScraper := {
  name : string;
  base_url : string;
  start_urls : list string;
  skip_patterns : list string;
  visited_urls : gset string }.

Definition common_skips : list string :=
  ["#"; "javascript:"; "mailto:"; ".pdf"; ".zip"; ".png"; ".jpg"; ".jpeg";
   ".gif"; ".svg"].

(** [BaseScraper.should_skip] *)
Definition should_skip (self : BaseScraper) (url : string) : bool :=
  if bool_decide (url ∈ visited_urls self) then true
  else if negb (PyStr.startswith url (base_url self)) then true
  else if existsb (fun pattern => PyStr.contains pattern url) (skip_patterns self) then true
  else if existsb (fun skip => PyStr.contains skip (PyStr.lower url)) common_skips then true
  else false.

(** [base or self.base_url]: [None] and the empty string are falsy. *)
Definition base_or (base : option string) (default : string) : string :=
  match base with
  | Some (String c b) => String c b
  | _ => default
  end.

(** [BaseScraper.normalize_url]; it raises what [urlparse] or [urljoin]
    raises. *)
Definition normalize_url (lib : UrlLib) (self : BaseScraper)
    (url : string) (base : option string) : outcome string :=
  let base := base_or base (base_url self) in
  if PyStr.startswith url "/" then
    parsed_base ← urlparse lib base;
    Returned (Urllib.scheme parsed_base +:+ "://" +:+ Urllib.netloc parsed_base +:+ url)
  else if negb (PyStr.startswith url "http") then
    urljoin lib base url
  else
    Returned (PyStr.rstrip_char "/" (PyStr.split_first "#" url)).

(** The loop that removes duplicates while preserving order. *)
Fixpoint unique_from (seen : gset string) (links : list string) : list string :=
  match links with
  | [] => []
  | link :: rest =>
      if bool_decide (link ∈ seen) then unique_from seen rest
      else link :: unique_from ({[link]} ∪ seen) rest
  end.

(** [if selector: container = soup.select_one(selector)]: the soup to take
    links from, [None] when the selector matches nothing.  A selector that
    is [None] or empty is falsy and leaves the whole page. *)
Definition container_of (web : Web) (soup : Soup web) (selector : option string)
  : outcome (option (Soup web)) :=
  match selector with
  | Some (String c sel) => select_one web soup (String c sel)
  | _ => Returned (Some soup)
  end.

(** The [for a_tag in soup.find_all("a", href=True)] loop of
    [extract_links_from_page]; [links] is the list collected so far. *)
Fixpoint links_loop (lib : UrlLib) (self : BaseScraper) (url : string)
    (hrefs : list string) (links : list string) : outcome (list string) :=
  match hrefs with
  | [] => Returned links
  | href :: rest =>
      absolute_url ← normalize_url lib self href (Some url);
      if should_skip self absolute_url then links_loop lib self url rest links
      else links_loop lib self url rest (links ++ [absolute_url])
  end.

(** The body of the [try] in [extract_links_from_page]. *)
Definition extract_links_body (lib : UrlLib) (web : Web) (self : BaseScraper)
    (url : string) (selector : option string) : outcome (list string) :=
  html ← fetch_url web url;
  soup ← BeautifulSoup web html;
  container ← container_of web soup selector;
  match container with
  | None => Returned []
  | Some soup =>
      hrefs ← find_all_href web soup;
      links ← links_loop lib self url hrefs [];
      Returned (unique_from ∅ links)
  end.

(** [BaseScraper.extract_links_from_page] *)
Definition extract_links_from_page (lib : UrlLib) (web : Web) (self : BaseScraper)
    (url : string) (selector : option string) : list string :=
  catch (extract_links_body lib web self url selector) (fun _ => []).

(** One iteration of the [while to_visit] loop of [crawl_recursively], for
    a non-empty queue: the state is [(all_urls, to_visit)]. *)
Definition crawl_step (extract : string -> list string) (max_depth : Z)
    (all_urls : gset string) (url : string) (depth : Z)
    (to_visit : list (string * Z)) : gset string * list (string * Z) :=
  if bool_decide (url ∈ all_urls) || (depth >? max_depth) then (all_urls, to_visit)
  else
    let all_urls := {[url]} ∪ all_urls in
    let links := extract url in
    (all_urls,
     (to_visit ++
      map (fun link => (link, depth + 1))
          (filter (fun link => link ∉ all_urls) links))).

(** The [while to_visit] loop; [fuel] bounds the number of iterations, and
    [None] means the bound was reached with entries still pending. *)
Fixpoint crawl_loop (extract : string -> list string) (max_depth : Z)
    (fuel : nat) (all_urls : gset string) (to_visit : list (string * Z))
  : option (gset string) :=
  match to_visit with
  | [] => Some all_urls
  | (url, depth) :: rest =>
      match fuel with
      | O => None
      | S fuel =>
          let '(all_urls, to_visit) := crawl_step extract max_depth all_urls url depth rest in
          crawl_loop extract max_depth fuel all_urls to_visit
      end
  end.

(** The traversal of [crawl_recursively] over a link-extraction capability;
    the result is the set [all_urls] that the method returns as a list. *)
Definition crawl_from (extract : string -> list string)
    (start_url : string) (max_depth : Z) (fuel : nat) : option (gset string) :=
  crawl_loop extract max_depth fuel ∅ [(start_url, 0)].

(** [BaseScraper.crawl_recursively] *)
Definition crawl_recursively (lib : UrlLib) (web : Web) (self : BaseScraper)
    (start_url : string) (max_depth : Z) (link_selector : option string)
    (fuel : nat) : option (list string) :=
  elements <$>
    crawl_from (fun url => extract_links_from_page lib web self url link_selector)
               start_url max_depth fuel.

(** The loop of [filter_urls]: [filtered] and [seen] hold the normalized
    URLs kept so far.  There is no [try] around it: what [normalize_url]
    raises ends the loop and is raised by [filter_urls]. *)
Fixpoint filter_loop (lib : UrlLib) (self : BaseScraper)
    (filtered : list string) (seen : gset string) (urls : list string)
  : outcome (list string) :=
  match urls with
  | [] => Returned filtered
  | url :: rest =>
      normalized ← normalize_url lib self url None;
      if should_skip self normalized then filter_loop lib self filtered seen rest
      else if bool_decide (normalized ∈ seen) then filter_loop lib self filtered seen rest
      else filter_loop lib self (filtered ++ [normalized]) ({[normalized]} ∪ seen) rest
  end.

(** [BaseScraper.filter_urls] *)
Definition filter_urls (lib : UrlLib) (self : BaseScraper) (urls : list string)
  : outcome (list string) :=
  filter_loop lib self [] ∅ urls.

(** ** The site scrapers ([src/scrapers/react.py] and its siblings)

    Every [discover_urls] crawls from each start URL in turn, collects the
    results in a set, and filters the set's URLs; the scrapers differ in
    [max_depth] and [link_selector] only. *)

(** The [for start_url in self.start_urls] loop: [all_urls] is the set
    collected so far. *)
Fixpoint discover_loop (lib : UrlLib) (web : Web) (self : BaseScraper)
    (max_depth : Z) (link_selector : string) (fuel : nat)
    (all_urls : gset string) (starts : list string) : option (gset string) :=
  match starts with
  | [] => Some all_urls
  | start_url :: rest =>
      section_urls ←
        crawl_recursively lib web self start_url max_depth (Some link_selector) fuel;
      discover_loop lib web self max_depth link_selector fuel
        (all_urls ∪ list_to_set section_urls) rest
  end.

(** [discover_urls] for given [max_depth] and [link_selector]; [fuel]
    bounds each traversal.  When the traversals have ended, the method
    returns or raises what [filter_urls] does. *)
Definition discover_urls_with (max_depth : Z) (link_selector : string)
    (lib : UrlLib) (web : Web) (self : BaseScraper) (fuel : nat)
  : option (outcome (list string)) :=
  all_urls ← discover_loop lib web self max_depth link_selector fuel ∅ (start_urls self);
  Some (filter_urls lib self (elements all_urls)).

Module ReactScraper.
Definition discover_urls := discover_urls_with 4 "main".
End ReactScraper.

Module NextJSScraper.
Definition discover_urls := discover_urls_with 4 "main".
End NextJSScraper.

Module TypeScriptScraper.
Definition discover_urls := discover_urls_with 4 "#sidebar".
End TypeScriptScraper.

Module TailwindScraper.
Definition discover_urls := discover_urls_with 4 "nav".
End TailwindScraper.

Module FastAPIScraper.
Definition discover_urls := discover_urls_with 4 ".md-sidebar--primary".
End FastAPIScraper.

Module DjangoScraper.
Definition discover_urls := discover_urls_with 2 "main".
End DjangoScraper.

Module PostgreSQLScraper.
Definition discover_urls := discover_urls_with 3 "body".
End PostgreSQLScraper.

(** ** [src/utils/chunker.py] *)

(** The values a metadata dictionary holds. *)
Inductive pyval : Type :=
  | VStr (s : string)
  | VInt (n : Z)
  | VBool (b : bool).

(** A chunk dictionary: [{"content": ..., "metadata": ..., "tokens": ...}]. *)
Record chunk := {
  content : string;
  metadata : gmap string pyval;
  tokens : Z }.

(** A [SmartChunker] instance: [encode] is [self.encoding.encode] (the
    tiktoken tokenizer) and [get_nodes] gives the contents of the nodes that
    [self.splitter.get_nodes_from_documents] returns for a document with
    the given text and metadata. *)
Record SmartChunker := {
  chunk_size : Z;
  overlap : Z;
  encode : string -> list Z;
  get_nodes : string -> gmap string pyval -> list string }.

(** [SmartChunker.count_tokens] *)
Definition count_tokens (self : SmartChunker) (text : string) : Z :=
  Z.of_nat (length (encode self text)).

(** [SmartChunker.chunk_text] *)
Definition chunk_text (self : SmartChunker) (text : string)
    (metadata : option (gmap string pyval)) : list chunk :=
  match PyStr.strip text with
  | EmptyString => []
  | _ =>
      let metadata := default ∅ metadata in
      let nodes := get_nodes self text metadata in
      imap (fun i chunk_text =>
              {| content := chunk_text;
                 metadata := <["chunk_count" := VInt (Z.of_nat (length nodes))]>
                               (<["chunk_index" := VInt (Z.of_nat i)]> metadata);
                 tokens := count_tokens self chunk_text |})
           nodes
  end.

(** [code_fence_pattern.match(line)] for the pattern [^```.*$] on a line
    without line feed: the line starts with three backticks. *)
Definition is_fence (line : string) : bool :=
  PyStr.startswith line "```".

(** The [while i < len(lines)] loop of [_split_preserving_code_blocks] with
    the "remaining text" step after it; the state is
    [(parts, current_text, in_code_block)]. *)
Fixpoint split_loop (lines : list string) (parts : list (string * bool))
    (current_text : list string) (in_code_block : bool) : list (string * bool) :=
  match lines with
  | [] =>
      match current_text with
      | [] => parts
      | _ => parts ++ [(PyStr.join PyStr.LF current_text, in_code_block)]
      end
  | line :: rest =>
      if is_fence line then
        if in_code_block then
          split_loop rest
            (parts ++ [(PyStr.join PyStr.LF (current_text ++ [line]), true)]) [] false
        else
          let parts :=
            match current_text with
            | [] => parts
            | _ => parts ++ [(PyStr.join PyStr.LF current_text, false)]
            end in
          split_loop rest parts [line] true
      else split_loop rest parts (current_text ++ [line]) in_code_block
  end.

(** [SmartChunker._split_preserving_code_blocks] *)
Definition _split_preserving_code_blocks (markdown : string) : list (string * bool) :=
  split_loop (PyStr.split PyStr.LF markdown) [] [] false.

(** The chunk emitted for a code block that fits in [chunk_size]. *)
Definition code_block_chunk (self : SmartChunker) (part_text : string)
    (metadata : option (gmap string pyval)) : chunk :=
  {| content := part_text;
     metadata := <["is_code_block" := VBool true]> (default ∅ metadata);
     tokens := count_tokens self part_text |}.

(** The body of the [for part_text, is_code in parts] loop of
    [chunk_markdown]: the chunks it adds to [all_chunks]. *)
Definition chunk_part (self : SmartChunker) (metadata : option (gmap string pyval))
    (part : string * bool) : list chunk :=
  let '(part_text, is_code) := part in
  if is_code then
    if count_tokens self part_text <=? chunk_size self
    then [code_block_chunk self part_text metadata]
    else chunk_text self part_text metadata
  else chunk_text self part_text metadata.

(** [SmartChunker.chunk_markdown] *)
Definition chunk_markdown (self : SmartChunker) (markdown : string)
    (metadata : option (gmap string pyval)) (preserve_code_blocks : bool) : list chunk :=
  if preserve_code_blocks then
    let parts := _split_preserving_code_blocks markdown in
    foldl (fun all_chunks part => all_chunks ++ chunk_part self metadata part) [] parts
  else chunk_text self markdown metadata.

(** *** Headers and contextual nodes *)

(** A header dictionary: [{"level": ..., "text": ..., "position": ...}]. *)
Module Header.
Record t := { level : Z; text : string; position : Z }.
End Header.

(** The longest prefix of [s] in the class [p], and the rest. *)
Fixpoint span (p : ascii -> bool) (s : string) : string * string :=
  match s with
  | EmptyString => (EmptyString, EmptyString)
  | String c s' =>
      if p c then let '(a, b) := span p s' in (String c a, b)
      else (EmptyString, s)
  end.

(** [s[n:]] *)
Fixpoint drop_chars (n : nat) (s : string) : string :=
  match n, s with
  | S n, String _ s' => drop_chars n s'
  | _, _ => s
  end.

(** [s[:n]] *)
Fixpoint take_chars (n : nat) (s : string) : string :=
  match n, s with
  | S n, String c s' => String c (take_chars n s')
  | _, _ => EmptyString
  end.

(** The index of the last character of [s] in the class [p]. *)
Fixpoint last_index (p : ascii -> bool) (s : string) : option nat :=
  match s with
  | EmptyString => None
  | String c s' =>
      match last_index p s' with
      | Some j => Some (S j)
      | None => if p c then Some O else None
      end
  end.

Definition is_hash (c : ascii) : bool := Ascii.eqb c "#".
Definition not_LF (c : ascii) : bool := negb (Ascii.eqb c PyStr.LF).

(** A match of [^(#{1,6})\s+(.+)$] (with [re.MULTILINE]) that starts at the
    line start [s]: the level ([len(group(1))]), [group(2)] and the length
    of the match.

    After the run of [#], which must be 1 to 6 long (with fewer taken the
    next character is a [#], no whitespace), [\s+] takes the whole run of
    whitespace, line feeds included; [(.+)] then takes the rest of the line
    it stands on, and [$] holds there.  When only whitespace is left up to
    the end of the text, [\s+] gives characters back until [.] can take
    one: the last character of the run, after its first, that is no line
    feed. *)
Definition match_header (s : string) : option (Z * string * nat) :=
  let '(hashes, r) := span is_hash s in
  let k := String.length hashes in
  if ((1 <=? k) && (k <=? 6))%nat then
    let '(w, t) := span PyStr.isspace r in
    match w with
    | EmptyString => None
    | String _ w' =>
        match t with
        | String _ _ =>
            let g := (span not_LF t).1 in
            Some (Z.of_nat k, g, (k + String.length w + String.length g)%nat)
        | EmptyString =>
            match last_index not_LF w' with
            | Some j =>
                let g := (span not_LF (drop_chars (S j) w)).1 in
                Some (Z.of_nat k, g, (k + S j + String.length g)%nat)
            | None => None
            end
        end
    end
  else None.

(** [re.finditer] over the text: [pos] is the index of the first character
    of [s], [at_line_start] says whether [^] holds there, and [skip] counts
    the characters of the last match that are still to pass. *)
Fixpoint headers_from (s : string) (pos : Z) (at_line_start : bool) (skip : nat)
  : list Header.t :=
  match s with
  | EmptyString => []
  | String c s' =>
      match skip with
      | S skip' => headers_from s' (pos + 1) false skip'
      | O =>
          match (if at_line_start then match_header s else None) with
          | Some (level, group2, len) =>
              {| Header.level := level; Header.text := PyStr.strip group2;
                 Header.position := pos |}
              :: headers_from s' (pos + 1) false (len - 1)
          | None => headers_from s' (pos + 1) (Ascii.eqb c PyStr.LF) O
          end
      end
  end.

(** [SmartChunker._extract_headers_with_positions] *)
Definition _extract_headers_with_positions (markdown : string) : list Header.t :=
  headers_from markdown 0 true O.

(** [f"h{i}"] *)
Definition header_key (i : Z) : string := "h" +:+ pretty i.

(** [for i in range(level + 1, 7): active_headers.pop(f"h{i}", None)] *)
Definition pop_deeper (level : Z) (active_headers : gmap string string)
  : gmap string string :=
  foldl (fun active i => delete (header_key i) active) active_headers
        (seqZ (level + 1) (7 - (level + 1))).

(** [SmartChunker._get_headers_for_position] *)
Definition _get_headers_for_position (position : Z) (headers : list Header.t)
  : gmap string string :=
  foldl (fun active_headers header =>
           if Header.position header <=? position then
             pop_deeper (Header.level header)
               (<[header_key (Header.level header) := Header.text header]> active_headers)
           else active_headers)
        ∅ headers.

(** [s.find(sub)]: the lowest index at which [sub] occurs, [-1] when it
    does not occur. *)
Fixpoint find_from (sub s : string) (pos : Z) : Z :=
  if PyStr.startswith s sub then pos
  else match s with
       | EmptyString => -1
       | String _ s' => find_from sub s' (pos + 1)
       end.

Definition find (s sub : string) : Z := find_from sub s 0.

(** The values of a node's metadata: the chunk's own values, the header
    dictionary, a text, or [None]. *)
Inductive nodeval : Type :=
  | NVal (v : pyval)
  | NHeaders (headers : gmap string string)
  | NText (s : string)
  | NNone.

(** A [TextNode(text=..., metadata=...)]. *)
Module TextNode.
Record t := { text : string; metadata : gmap string nodeval }.
End TextNode.

(** [chunk["metadata"]] *)
Definition chunk_metadata (c : chunk) : gmap string pyval := metadata c.

#[global] Instance chunk_inhabited : Inhabited chunk :=
  populate {| content := EmptyString; metadata := ∅; tokens := 0 |}.

(** [SmartChunker.chunk_document_with_context] *)
Definition chunk_document_with_context (self : SmartChunker) (markdown : string)
    (metadata : option (gmap string pyval)) : list TextNode.t :=
  let headers := _extract_headers_with_positions markdown in
  let chunks := chunk_markdown self markdown metadata true in
  imap (fun i chunk =>
          let chunk_content := content chunk in
          let chunk_position := find markdown chunk_content in
          let current_headers := _get_headers_for_position chunk_position headers in
          {| TextNode.text := chunk_content;
             TextNode.metadata :=
               <["next_chunk" :=
                   if (i <? length chunks - 1)%nat
                   then NText (take_chars 100 (content (chunks !!! (i + 1)%nat)))
                   else NNone]>
               (<["previous_chunk" :=
                   if (0 <? i)%nat
                   then NText (take_chars 100 (content (chunks !!! (i - 1)%nat)))
                   else NNone]>
               (<["headers" := NHeaders current_headers]>
                  (NVal <$> chunk_metadata chunk))) |})
       chunks.

(** ** [src/utils/crawl.py]

    The HTTP client and the browser are outside the program: [client_get]
    gives what the [n]-th request of a run ([client.get] followed by
    [raise_for_status]) does, and [page_content] what the Playwright page
    load does.  The run keeps a log of the requests, the sleeps and the
    browser loads it has made. *)

Module Crawl.

(** The exceptions the code tells apart; [OtherError] is any other
    subclass of [Exception]. *)
Inductive exn : Type :=
  | HTTPStatusError (status_code : Z)
  | RequestError
  | RuntimeError
  | OtherError (e : string).

Inductive result : Type :=
  | Ok (text : string)
  | Err (e : exn).

Inductive event : Type :=
  | Get
  | Sleep (seconds : Z)
  | Playwright.

#[global] Instance exn_eq_dec : EqDecision exn.
Proof. solve_decision. Defined.

#[global] Instance result_eq_dec : EqDecision result.
Proof. solve_decision. Defined.

#[global] Instance event_eq_dec : EqDecision event.
Proof. solve_decision. Defined.

Record Http := {
  client_get : string -> Z -> nat -> result;
  page_content : string -> Z -> option string -> result }.

(** The number of requests a run has made so far. *)
Definition requests_made (log : list event) : nat :=
  length (filter (fun ev => ev = Get) log).

(** The [while retry_count < max_retries] loop of [fetch_with_requests]
    with the [raise RuntimeError] after it. *)
Fixpoint requests_loop (http : Http) (url : string) (timeout max_retries : Z)
    (fuel : nat) (retry_count : Z) (log : list event) : option (result * list event) :=
  match fuel with
  | O => None
  | S fuel =>
      if retry_count <? max_retries then
        let response := client_get http url timeout (requests_made log) in
        let log := log ++ [Get] in
        match response with
        | Ok text => Some (Ok text, log)
        | Err (HTTPStatusError status_code) =>
            if status_code =? 403 then Some (Err (HTTPStatusError status_code), log)
            else
              let retry_count := retry_count + 1 in
              if retry_count >=? max_retries
              then Some (Err (HTTPStatusError status_code), log)
              else requests_loop http url timeout max_retries fuel retry_count
                     (log ++ [Sleep (2 ^ retry_count)])
        | Err RequestError =>
            let retry_count := retry_count + 1 in
            if retry_count >=? max_retries
            then Some (Err RequestError, log)
            else requests_loop http url timeout max_retries fuel retry_count
                   (log ++ [Sleep (2 ^ retry_count)])
        | Err e => Some (Err e, log)
        end
      else Some (Err RuntimeError, log)
  end.

(** [fetch_with_requests] *)
Definition fetch_with_requests (http : Http) (url : string) (timeout max_retries : Z)
    (fuel : nat) (log : list event) : option (result * list event) :=
  requests_loop http url timeout max_retries fuel 0 log.

(** [fetch_with_playwright] *)
Definition fetch_with_playwright (http : Http) (url : string) (timeout : Z)
    (wait_for_selector : option string) (log : list event) : result * list event :=
  (page_content http url timeout wait_for_selector, log ++ [Playwright]).

(** [fetch_url] *)
Definition fetch_url (http : Http) (url : string) (timeout max_retries : Z)
    (use_playwright : bool) (wait_for_selector : option string)
    (fuel : nat) (log : list event) : option (result * list event) :=
  if use_playwright
  then Some (fetch_with_playwright http url timeout wait_for_selector log)
  else
    '(r, log) ← fetch_with_requests http url timeout max_retries fuel log;
    match r with
    | Ok text => Some (Ok text, log)
    | Err (HTTPStatusError status_code) =>
        if status_code =? 403
        then Some (fetch_with_playwright http url timeout wait_for_selector log)
        else Some (Err (HTTPStatusError status_code), log)
    | Err _ => Some (fetch_with_playwright http url timeout wait_for_selector log)
    end.

End Crawl.

(** ** [src/core/indexer.py]

    The chunks an [Indexer] reads are those the embedder saved: the
    dictionaries of [chunk_markdown], whose metadata values are strings,
    integers and booleans.  [compute_hash] ([src/utils/hash.py]) is the
    SHA-256 digest in hexadecimal; the identifiers are studied for any
    function in its place. *)

(** [f"{v}"]: the text an f-string puts for a value. *)
Definition py_str (v : pyval) : string :=
  match v with
  | VStr s => s
  | VInt n => pretty n
  | VBool true => "True"
  | VBool false => "False"
  end.

(** [Indexer._generate_chunk_id] *)
Definition _generate_chunk_id (compute_hash : string -> string)
    (chunk : chunk) (index : Z) : string :=
  let url := default (VStr "unknown") (chunk_metadata chunk !! "url") in
  let chunk_index := default (VInt index) (chunk_metadata chunk !! "chunk_index") in
  let id_string := py_str url +:+ "#" +:+ py_str chunk_index in
  let hash_suffix := take_chars 8 (compute_hash id_string) in
  py_str chunk_index +:+ "_" +:+ hash_suffix.

(** * Instances and vocabulary

    Concrete instances to evaluate the embedding on, and the notions the
    properties below are stated with. *)

(** ** Instances *)

(** A chunker to evaluate the definitions on: one token per character, one
    node per non-blank line, and the sizes of the test fixture. *)
Definition char_tokens (text : string) : list Z :=
  map (fun c => Z.of_nat (nat_of_ascii c)) (list_ascii_of_string text).

Definition line_nodes (text : string) (_ : gmap string pyval) : list string :=
  filter (fun line => PyStr.strip line <> "") (PyStr.split PyStr.LF text).

Definition sample_chunker : SmartChunker :=
  {| chunk_size := 100; overlap := 20; encode := char_tokens; get_nodes := line_nodes |}.

Definition sample_code : string :=
  PyStr.join PyStr.LF ["```python"; "def hello():"; "    print(1)"; "```"].

Definition sample_markdown : string :=
  PyStr.join PyStr.LF
    ["# Test Document"; ""; "Here is some text."; "";
     "```python"; "def hello():"; "    print(1)"; "```"; ""; "More text here."; ""].

(** A scraper for the site of the specification's scenarios. *)
Definition x_dev : BaseScraper :=
  {| name := "x"; base_url := "https://x.dev"; start_urls := ["https://x.dev/a"];
     skip_patterns := ["/blog/"]; visited_urls := ∅ |}.

(** The link graph of the specification's scenario: [a] links to [b] and
    [c], [b] links to [d]. *)
Definition scenario_links (url : string) : list string :=
  if String.eqb url "https://x.dev/a" then ["https://x.dev/b"; "https://x.dev/c"]
  else if String.eqb url "https://x.dev/b" then ["https://x.dev/d"]
  else [].

(** The same site behind [fetch_url]: a page is served as its [href]
    values, one per line; every other URL fails to load; the only
    container that exists is [main].  A further page [e], which no page
    links to, has an [href] with a malformed host. *)
Definition site_page (url : string) : option (list string) :=
  if String.eqb url "https://x.dev/a"
  then Some ["/b"; "c"; "https://x.dev/b/"; "#top"; "https://other.org/"; "/blog/post"]
  else if String.eqb url "https://x.dev/b" then Some ["/d"; "a"; "/logo.png"]
  else if String.eqb url "https://x.dev/e" then Some ["/d"; "ftp://[bad/x"; "/b"]
  else None.

Definition site : Web :=
  {| Soup := list string;
     fetch_url url :=
       match site_page url with
       | Some hrefs => Returned (PyStr.join PyStr.LF hrefs)
       | None => Raised "HTTP 404"
       end;
     BeautifulSoup html := Returned (PyStr.split PyStr.LF html);
     select_one soup selector :=
       if String.eqb selector "main" then Returned (Some soup) else Returned None;
     find_all_href soup := Returned soup |}.

(** A server that answers 500, then drops the connection, then serves the
    page; and one that always answers 503.  The browser renders a page. *)
Definition flaky : Crawl.Http :=
  {| Crawl.client_get _ _ n :=
       match n with
       | O => Crawl.Err (Crawl.HTTPStatusError 500)
       | S O => Crawl.Err Crawl.RequestError
       | _ => Crawl.Ok "<html>static</html>"
       end;
     Crawl.page_content _ _ _ := Crawl.Ok "<html>rendered</html>" |}.

Definition unavailable : Crawl.Http :=
  {| Crawl.client_get _ _ _ := Crawl.Err (Crawl.HTTPStatusError 503);
     Crawl.page_content _ _ _ := Crawl.Ok "<html>rendered</html>" |}.

(** A function to evaluate [_generate_chunk_id] with, in the place of the
    SHA-256 digest: the text read backwards. *)
Definition reversed (s : string) : string :=
  string_of_list_ascii (rev (list_ascii_of_string s)).

(** The metadata the embedder passes for a page. *)
Definition page_metadata : gmap string pyval :=
  <["framework" := VStr "x"]> (<["url" := VStr "https://x.dev/a"]>
    (<["title" := VStr "Guide"]> (<["source_file" := VStr "markdown/x/a.md"]> ∅))).

(** A document with two headers, prose and a code block. *)
Definition sample_document : string :=
  PyStr.join PyStr.LF
    ["# Guide"; ""; "Intro text."; ""; "## Install"; ""; "```"; "pip install x"; "```"; "";
     "Done."].

(** ** Vocabulary *)

Section vocabulary.
Import PyStr.

(** [p] is a prefix, a substring, a suffix of [s]. *)
Definition prefix_of (p s : string) : Prop := exists r, s = p +:+ r.
Definition substring_of (p s : string) : Prop := exists a b, s = a +:+ p +:+ b.
Definition suffix_of (p s : string) : Prop := exists a, s = a +:+ p.

(** The text is empty or consists only of whitespace: [str.isspace] holds
    of each of its characters. *)
Definition blank (text : string) : Prop := all_chars isspace text = true.

(** [n] slashes. *)
Fixpoint slashes (n : nat) : string :=
  match n with O => "" | S n => String "/" (slashes n) end.

(** A part as a group of lines with its flag, and the part it is stored as. *)
Definition render (gf : list string * bool) : string * bool :=
  (join LF gf.1, gf.2).

Definition no_fence (g : list string) : Prop :=
  Forall (fun line => is_fence line = false) g.

(** A prose group: at least one line, none of them a fence. *)
Definition text_group (g : list string) : Prop :=
  g <> [] /\ no_fence g.

(** A terminated code group: the opening fence line, lines without fence,
    the closing fence line. *)
Definition closed_code_group (g : list string) : Prop :=
  exists fence_open body fence_close,
    g = fence_open :: body ++ [fence_close] /\
    is_fence fence_open = true /\ no_fence body /\ is_fence fence_close = true.

(** A code group the input ends in: the opening fence line and lines
    without fence. *)
Definition open_code_group (g : list string) : Prop :=
  exists fence_open body,
    g = fence_open :: body /\ is_fence fence_open = true /\ no_fence body.

Definition complete_group (gf : list string * bool) : Prop :=
  if gf.2 then closed_code_group gf.1 else text_group gf.1.

(** The groups of a document: complete groups, the last of which may
    instead be a code group left open. *)
Inductive well_grouped : list (list string * bool) -> Prop :=
  | wg_nil : well_grouped []
  | wg_open g : open_code_group g -> well_grouped [(g, true)]
  | wg_cons gf gs : complete_group gf -> well_grouped gs -> well_grouped (gf :: gs).

(** What the loop holds in [current_text] while [in_code_block] is [b]. *)
Definition pending (current_text : list string) (b : bool) : Prop :=
  if b then open_code_group current_text else no_fence current_text.

(** The skip predicate with its last alternative read as a suffix test:
    the lower-cased URL ends with one of the common non-document patterns. *)
Definition skip_by_suffix (self : BaseScraper) (url : string) : Prop :=
  url ∈ visited_urls self \/
  ~ prefix_of (base_url self) url \/
  (exists pattern, pattern ∈ skip_patterns self /\ substring_of pattern url) \/
  (exists skip, skip ∈ common_skips /\ suffix_of skip (lower url)).

(** The ways in which extracting the links of a page fails: the fetch
    raises, the parser raises, the selector raises or matches nothing,
    collecting the anchors raises, or normalizing one of the [href] values
    raises. *)
Inductive extraction_fails (lib : UrlLib) (web : Web) (self : BaseScraper)
    (url : string) (selector : option string) : Prop :=
  | fetch_fails e :
      fetch_url web url = Raised e -> extraction_fails lib web self url selector
  | parse_fails html e :
      fetch_url web url = Returned html ->
      BeautifulSoup web html = Raised e -> extraction_fails lib web self url selector
  | select_fails html soup e :
      fetch_url web url = Returned html ->
      BeautifulSoup web html = Returned soup ->
      container_of web soup selector = Raised e -> extraction_fails lib web self url selector
  | selector_not_found html soup :
      fetch_url web url = Returned html ->
      BeautifulSoup web html = Returned soup ->
      container_of web soup selector = Returned None ->
      extraction_fails lib web self url selector
  | find_all_fails html soup container e :
      fetch_url web url = Returned html ->
      BeautifulSoup web html = Returned soup ->
      container_of web soup selector = Returned (Some container) ->
      find_all_href web container = Raised e -> extraction_fails lib web self url selector
  | normalize_fails html soup container hrefs href e :
      fetch_url web url = Returned html ->
      BeautifulSoup web html = Returned soup ->
      container_of web soup selector = Returned (Some container) ->
      find_all_href web container = Returned hrefs ->
      href ∈ hrefs ->
      normalize_url lib self href (Some url) = Raised e ->
      extraction_fails lib web self url selector.

(** Every text of the list normalizes, to the text at the same place of
    the second list. *)
Definition normalized_to (lib : UrlLib) (self : BaseScraper) (base : option string)
    (urls normalized : list string) : Prop :=
  Forall2 (fun url n => normalize_url lib self url base = Returned n) urls normalized.

(** The characters other than the underscore. *)
Definition not_underscore (c : ascii) : bool := negb (Ascii.eqb c "_").

(** [k] hash signs. *)
Fixpoint hashes (k : nat) : string :=
  match k with O => "" | S k => String "#" (hashes k) end.

(** What holds of a header of the text [markdown]. *)
Definition header_ok (markdown : string) (h : Header.t) : Prop :=
  1 <= Header.level h <= 6 /\
  contains (String LF "") (Header.text h) = false /\
  strip (Header.text h) = Header.text h /\
  exists before rest,
    markdown = before +:+ String "#" rest /\
    Z.of_nat (String.length before) = Header.position h /\
    (before = "" \/ suffix_of (String LF "") before).

End vocabulary.

(** The traversal's link graph, invariant and bound. *)

Section traversal_model.

Variable extract : string -> list string.
Variable start_url : string.
Variable max_depth : Z.

(** [path n u]: [u] is reached from the start URL by [n] link steps. *)
Inductive path : nat -> string -> Prop :=
  | path_start : path 0 start_url
  | path_step n u v : path n u -> v ∈ extract u -> path (S n) v.

(** The URLs reachable within [max_depth] link steps. *)
Definition within_depth (u : string) : Prop :=
  exists n, path n u /\ Z.of_nat n <= max_depth.

(** The queue depths never decrease, and span at most two levels. *)
Fixpoint banded (to_visit : list (string * Z)) : Prop :=
  match to_visit with
  | [] => True
  | (_, d) :: rest => Forall (fun e => d <= e.2 <= d + 1) rest /\ banded rest
  end.

(** A URL that has to be looked at with depth [n]: the start URL with
    depth 0, and every link of a page expanded at depth [n - 1]. *)
Definition demanded (expanded : gmap string Z) (v : string) (n : Z) : Prop :=
  (v = start_url /\ n = 0) \/
  (exists u d, expanded !! u = Some d /\ v ∈ extract u /\ n = d + 1).

(** The loop invariant; [expanded] records the depth at which each visited
    URL was taken from the queue. *)
Record crawl_inv (expanded : gmap string Z) (all_urls : gset string)
    (to_visit : list (string * Z)) : Prop := {
  inv_dom : all_urls = dom expanded;
  inv_expanded : forall u d, expanded !! u = Some d ->
    0 <= d <= max_depth /\ path (Z.to_nat d) u;
  inv_queue : forall u d, (u, d) ∈ to_visit -> 0 <= d /\ path (Z.to_nat d) u;
  inv_banded : banded to_visit;
  inv_order : forall u d u' d', expanded !! u = Some d -> (u', d') ∈ to_visit -> d <= d';
  inv_demand : forall v n, demanded expanded v n -> n <= max_depth ->
    (exists d, expanded !! v = Some d /\ d <= n) \/ (v, n) ∈ to_visit }.

(** The URLs within [n] link steps, as a list: it bounds the visited set. *)
Fixpoint ball (n : nat) : list string :=
  match n with
  | O => [start_url]
  | S n => ball n ++ flat_map extract (ball n)
  end.

(** A bound on the iterations that a queue entry causes: one for the entry
    and, with [n] levels left, those of the links of its page. *)
Fixpoint cost (n : nat) (u : string) : nat :=
  match n with
  | O => 1
  | S n => S (sum_list (map (cost n) (extract u)))
  end.

Definition levels_left (depth : Z) : nat := Z.to_nat (max_depth + 1 - depth).

Definition queue_cost (to_visit : list (string * Z)) : nat :=
  sum_list (map (fun e => cost (levels_left e.2) e.1) to_visit).

End traversal_model.

(** ** The requests of a fetch *)

Section fetch_vocabulary.
Import Crawl.

(** A failed request that is followed by another one while attempts are
    left: a status error other than 403, or a request error. *)
Definition retried (r : result) : bool :=
  match r with
  | Err (HTTPStatusError status_code) => negb (status_code =? 403)
  | Err RequestError => true
  | _ => false
  end.

Definition succeeded (r : result) : Prop := exists text, r = Ok text.

(** A status error other than 403. *)
Definition status_failure (r : result) : Prop :=
  exists status_code, r = Err (HTTPStatusError status_code) /\ status_code <> 403.

(** The log of [n] requests made from [retry_count] on: a sleep of
    [2 ^ retry_count] seconds, for the incremented count, between one
    request and the next. *)
Fixpoint backoff_from (retry_count : Z) (n : nat) : list event :=
  match n with
  | O => []
  | S O => [Get]
  | S n => Get :: Sleep (2 ^ (retry_count + 1)) :: backoff_from (retry_count + 1) n
  end.

Definition backoff (n : nat) : list event := backoff_from 0 n.

(** The seconds slept in a log. *)
Definition slept (log : list event) : Z :=
  foldr (fun ev total => match ev with Sleep seconds => seconds + total | _ => total end) 0 log.

End fetch_vocabulary.

(** * Properties *)

(** ** The model of [urllib.parse] on sample URLs *)

Example urlparse_x_dev :
  Urllib.urlparse "https://x.dev/docs/a?b=1#c" =
    Returned {| Urllib.scheme := "https"; Urllib.netloc := "x.dev";
                Urllib.path := "/docs/a"; Urllib.params := "";
                Urllib.query := "b=1"; Urllib.fragment := "c" |}.
Proof. reflexivity. Qed.

Example urljoin_samples :
  Urllib.urljoin "https://x.dev/docs/a" "b" = Returned "https://x.dev/docs/b" /\
  Urllib.urljoin "https://x.dev/docs/a/" "../c/" = Returned "https://x.dev/docs/c/" /\
  Urllib.urljoin "https://x.dev/docs/a" "#top" = Returned "https://x.dev/docs/a#top" /\
  Urllib.urljoin "https://x.dev/docs/a" "mailto:me@x.dev" = Returned "mailto:me@x.dev" /\
  Urllib.urljoin "https://x.dev/docs/a" "//y.dev/z" = Returned "https://y.dev/z" /\
  Urllib.urljoin "https://x.dev" "b/c" = Returned "https://x.dev/b/c".
Proof. repeat split; vm_compute; reflexivity. Qed.

(** A host in brackets has to be an IPv6 or IPvFuture address. *)
Example urllib_bracketed_hosts :
  Urllib.urljoin "https://x.dev/docs/a" "ftp://[bad/x" = Raised "ValueError" /\
  Urllib.urlparse "http://[bad]/x" = Raised "ValueError" /\
  Urllib.urlparse "http://[1.2.3.4]/x" = Raised "ValueError" /\
  (r ← Urllib.urlparse "http://[::1]:8000/x"; Returned (Urllib.netloc r)) =
    Returned "[::1]:8000" /\
  (r ← Urllib.urlparse "http://[fe80::1%eth0]/"; Returned (Urllib.netloc r)) =
    Returned "[fe80::1%eth0]".
Proof. repeat split; vm_compute; reflexivity. Qed.

(** ** Strings *)

Section string_facts.
Import PyStr.

Lemma sapp_cons c (s t : string) : String c s +:+ t = String c (s +:+ t).
Proof. reflexivity. Qed.

Lemma sapp_nil_l (s : string) : "" +:+ s = s.
Proof. reflexivity. Qed.

Lemma sapp_nil_r (s : string) : s +:+ "" = s.
Proof. induction s as [|c s IH]; [done | by rewrite sapp_cons, IH]. Qed.

Lemma sapp_assoc (a b c : string) : (a +:+ b) +:+ c = a +:+ b +:+ c.
Proof. induction a as [|x a IH]; [done | by rewrite !sapp_cons, IH]. Qed.

Lemma startswith_spec s p : startswith s p = true <-> prefix_of p s.
Proof.
  revert s. induction p as [|a p IH]; intros s; simpl.
  - split; [intros _; by exists s | done].
  - destruct s as [|b s].
    + split; [done | intros [r Hr]; discriminate].
    + rewrite andb_true_iff, Ascii.eqb_eq, IH. split.
      * intros [-> [r ->]]. by exists r.
      * intros [r Hr]. rewrite sapp_cons in Hr. injection Hr as -> ->.
        split; [done | by exists r].
Qed.

Lemma contains_spec p s : contains p s = true <-> substring_of p s.
Proof.
  induction s as [|c s IH]; simpl.
  - rewrite orb_false_r, startswith_spec. split.
    + intros [r Hr]. by exists "", r.
    + intros [a [b Hab]]. destruct a; [by exists b | discriminate].
  - rewrite orb_true_iff, startswith_spec, IH. split.
    + intros [[r Hr] | [a [b Hab]]].
      * by exists "", r.
      * exists (String c a), b. by rewrite sapp_cons, Hab.
    + intros [a [b Hab]]. destruct a as [|x a].
      * left. by exists b.
      * right. rewrite sapp_cons in Hab. injection Hab as -> ->. by exists a, b.
Qed.

Lemma endswith_spec s p : endswith s p = true <-> suffix_of p s.
Proof.
  induction s as [|c s IH]; cbn [endswith].
  - rewrite orb_false_r, String.eqb_eq. split.
    + intros <-. by exists "".
    + intros [a Ha]. destruct a; [done | discriminate].
  - rewrite orb_true_iff, String.eqb_eq, IH. split.
    + intros [<- | [a ->]]; [by exists "" | by exists (String c a)].
    + intros [a Ha]. destruct a as [|x a].
      * by left.
      * right. rewrite sapp_cons in Ha. injection Ha as -> ->. by exists a.
Qed.

Lemma startswith_app s p r : startswith s p = true -> startswith (s +:+ r) p = true.
Proof.
  rewrite !startswith_spec. intros [t ->]. exists (t +:+ r). by rewrite sapp_assoc.
Qed.

(** *** [split] and [join] *)

Lemma split_nonempty sep s : split sep s <> [].
Proof.
  destruct s as [|c s]; simpl; [done |].
  destruct (Ascii.eqb c sep); [done |]. by destruct (split sep s).
Qed.

Lemma join_cons sep x l :
  l <> [] -> join sep (x :: l) = x +:+ String sep (join sep l).
Proof. by destruct l. Qed.

Lemma join_split sep s : join sep (split sep s) = s.
Proof.
  induction s as [|c s IH]; simpl; [done |].
  destruct (Ascii.eqb_spec c sep) as [-> | Hne].
  - rewrite join_cons by apply split_nonempty. by rewrite IH.
  - pose proof (split_nonempty sep s) as Hs.
    destruct (split sep s) as [|piece pieces]; [done |].
    destruct pieces as [|q pieces]; simpl in *; by rewrite <- IH.
Qed.

Lemma join_app sep l1 l2 :
  l1 <> [] -> l2 <> [] ->
  join sep (l1 ++ l2) = join sep l1 +:+ String sep (join sep l2).
Proof.
  induction l1 as [|x l1 IH]; intros H1 H2; [done |].
  destruct l1 as [|y l1].
  - simpl app. by rewrite join_cons.
  - change ((x :: y :: l1) ++ l2) with (x :: ((y :: l1) ++ l2)).
    rewrite (join_cons sep x ((y :: l1) ++ l2)) by done.
    rewrite IH by done. rewrite (join_cons sep x (y :: l1)) by done.
    by rewrite sapp_assoc.
Qed.

(** Joining the joined groups of lines is joining all the lines, as long as
    no group is empty. *)
Lemma join_concat sep (groups : list (list string)) :
  Forall (fun g => g <> []) groups ->
  join sep (map (join sep) groups) = join sep (concat groups).
Proof.
  induction 1 as [|g groups Hg Hgs IH]; [done |].
  destruct groups as [|g' groups].
  - simpl. by rewrite (right_id_L [] (++)).
  - change (map (join sep) (g :: g' :: groups))
      with (join sep g :: map (join sep) (g' :: groups)).
    rewrite join_cons by done. rewrite IH.
    change (concat (g :: g' :: groups)) with (g ++ concat (g' :: groups)).
    rewrite join_app; [done | done |].
    inversion Hgs as [|? ? Hg' _]; subst. simpl. by destruct g'.
Qed.

Lemma startswith_join sep x l p :
  startswith x p = true -> startswith (join sep (x :: l)) p = true.
Proof.
  intros Hx. destruct l as [|y l]; [done |].
  rewrite join_cons by done. by apply startswith_app.
Qed.

End string_facts.

(** ** [_split_preserving_code_blocks]: the parts partition the lines *)

Section split_code_blocks.
Import PyStr.

Lemma pending_snoc cur b line :
  pending cur b -> is_fence line = false -> pending (cur ++ [line]) b.
Proof.
  destruct b; simpl; intros H Hl.
  - destruct H as (o & body & -> & Ho & Hb).
    exists o, (body ++ [line]). split; [done |]. split; [done |].
    apply Forall_app. split; [done | by constructor].
  - apply Forall_app. split; [done | by constructor].
Qed.

Lemma split_loop_groups lines : forall parts cur b,
  pending cur b ->
  exists gs,
    split_loop lines parts cur b = parts ++ map render gs /\
    concat (map fst gs) = cur ++ lines /\
    well_grouped gs.
Proof.
  induction lines as [|line rest IH]; intros parts cur b Hp; simpl.
  - destruct cur as [|l cur].
    + exists []. simpl. rewrite (right_id_L [] (++)). split_and!; [done | done | constructor].
    + exists [(l :: cur, b)]. simpl. rewrite !(right_id_L [] (++)). split_and!; [done | done |].
      destruct b; simpl in Hp.
      * by apply wg_open.
      * apply wg_cons; [| constructor]. by split.
  - destruct (is_fence line) eqn:Hf.
    + destruct b; simpl in Hp.
      * destruct Hp as (o & body & -> & Ho & Hb).
        destruct (IH (parts ++ [(join LF ((o :: body) ++ [line]), true)]) [] false)
          as (gs & Heq & Hcat & Hwg); [constructor |].
        exists (((o :: body) ++ [line], true) :: gs). split_and!.
        -- rewrite Heq. by rewrite <- (assoc_L (++)).
        -- simpl in *. rewrite Hcat. by rewrite <- (assoc_L (++)).
        -- apply wg_cons; [| done]. by exists o, body, line.
      * assert (pending [line] true) as Hnew.
        { exists line, []. split_and!; [done | done | constructor]. }
        destruct cur as [|l cur].
        -- destruct (IH parts [line] true Hnew) as (gs & Heq & Hcat & Hwg).
           exists gs. by split_and!.
        -- destruct (IH (parts ++ [(join LF (l :: cur), false)]) [line] true Hnew)
             as (gs & Heq & Hcat & Hwg).
           exists ((l :: cur, false) :: gs). split_and!.
           ++ rewrite Heq. by rewrite <- (assoc_L (++)).
           ++ simpl in *. by rewrite Hcat.
           ++ apply wg_cons; [| done]. by split.
    + destruct (IH parts (cur ++ [line]) b (pending_snoc _ _ _ Hp Hf))
        as (gs & Heq & Hcat & Hwg).
      exists gs. split_and!; [done | | done].
      rewrite Hcat. by rewrite <- (assoc_L (++)).
Qed.

Lemma well_grouped_nonempty gs :
  well_grouped gs -> Forall (fun g => g <> []) (map fst gs).
Proof.
  induction 1 as [| g (o & body & -> & _) | [g f] gs Hc _ IH]; simpl.
  - constructor.
  - by repeat constructor.
  - constructor; [| done].
    unfold complete_group in Hc. destruct f; simpl in Hc.
    + by destruct Hc as (o & body & c & -> & _).
    + by destruct Hc.
Qed.

Lemma well_grouped_code_head gs g :
  (g, true) ∈ gs -> well_grouped gs ->
  exists fence_open rest, g = fence_open :: rest /\ is_fence fence_open = true.
Proof.
  intros Hin Hwg. induction Hwg as [| g' (o & body & -> & Ho & _) | gf gs Hc _ IH].
  - by apply elem_of_nil in Hin.
  - apply list_elem_of_singleton in Hin. injection Hin as ->. by exists o, body.
  - apply elem_of_cons in Hin as [<- | Hin]; [| by apply IH].
    unfold complete_group in Hc. simpl in Hc.
    destruct Hc as (o & body & c & -> & Ho & _). by exists o, (body ++ [c]).
Qed.

(** A code group that is not the last group is terminated. *)
Lemma well_grouped_code_closed gs1 g gf gs2 :
  well_grouped (gs1 ++ (g, true) :: gf :: gs2) -> closed_code_group g.
Proof.
  induction gs1 as [|x gs1 IH]; simpl; intros Hwg.
  - by inversion Hwg; subst.
  - inversion Hwg as [| ? ? Heq | ? ? ? Hrest]; subst.
    + by destruct gs1.
    + by apply IH.
Qed.

Lemma split_preserving_code_blocks_groups markdown :
  exists gs,
    _split_preserving_code_blocks markdown = map render gs /\
    concat (map fst gs) = split LF markdown /\
    well_grouped gs.
Proof.
  unfold _split_preserving_code_blocks.
  destruct (split_loop_groups (split LF markdown) [] [] false) as (gs & Heq & Hcat & Hwg);
    [constructor |].
  by exists gs.
Qed.

(** C10. The parts that [_split_preserving_code_blocks] returns are groups
    of consecutive input lines, every line in exactly one group and in
    order, so that joining the parts' texts with a line feed gives the
    input back; a part flagged as code begins with a fence line; the groups
    alternate as the fence lines toggle the state, a code group holding
    its opening fence line, lines without fence and its closing fence line,
    unless the input ends before the closing fence. *)
Theorem split_preserving_code_blocks_partition (markdown : string) :
  exists gs,
    _split_preserving_code_blocks markdown = map render gs /\
    concat (map fst gs) = split LF markdown /\
    well_grouped gs /\
    join LF (map fst (_split_preserving_code_blocks markdown)) = markdown /\
    (forall text, (text, true) ∈ _split_preserving_code_blocks markdown ->
                  is_fence text = true) /\
    (forall gs1 g gf gs2, gs = gs1 ++ (g, true) :: gf :: gs2 -> closed_code_group g).
Proof.
  destruct (split_preserving_code_blocks_groups markdown) as (gs & Heq & Hcat & Hwg).
  exists gs. split_and!; try done.
  - rewrite Heq.
    assert (map fst (map render gs) = map (join LF) (map fst gs)) as ->
      by (by rewrite !map_map).
    rewrite join_concat by by apply well_grouped_nonempty.
    by rewrite Hcat, join_split.
  - intros text Hin. rewrite Heq in Hin.
    apply list_elem_of_fmap in Hin as ([g f] & Hr & Hin).
    injection Hr as -> <-.
    destruct (well_grouped_code_head gs g Hin Hwg) as (o & rest & -> & Ho).
    by apply startswith_join.
  - intros gs1 g gf gs2 ->. by eapply well_grouped_code_closed.
Qed.

End split_code_blocks.

(** ** Blank input *)

Section blank_input.
Import PyStr.

Lemma lstrip_by_all p s : all_chars p s = true -> lstrip_by p s = "".
Proof.
  induction s as [|c s IH]; simpl; [done |].
  intros [Hc Hs]%andb_true_iff. rewrite Hc. by apply IH.
Qed.

Lemma rstrip_by_empty p s : rstrip_by p s = "" <-> all_chars p s = true.
Proof.
  induction s as [|c s IH]; simpl; [done |].
  destruct (rstrip_by p s) as [|x r] eqn:Hr.
  - destruct (p c); simpl; [tauto | split; discriminate].
  - split; [discriminate |].
    intros [_ Hs]%andb_true_iff. apply IH in Hs. discriminate.
Qed.

Lemma all_chars_lstrip p s :
  all_chars p (lstrip_by p s) = true -> all_chars p s = true.
Proof.
  induction s as [|c s IH]; simpl; [done |].
  destruct (p c) eqn:Hc; simpl; [done |]. by rewrite Hc.
Qed.

(** [not text.strip()] holds exactly for blank text. *)
Lemma strip_empty_iff text : strip text = "" <-> blank text.
Proof.
  unfold strip, blank. rewrite rstrip_by_empty. split.
  - apply all_chars_lstrip.
  - intros H. by rewrite (lstrip_by_all _ _ H).
Qed.

Lemma blank_not_fence line : blank line -> is_fence line = false.
Proof.
  destruct line as [|c line]; [done |]. unfold blank, is_fence.
  cbn [startswith all_chars]. intros [Hc _]%andb_true_iff.
  destruct (Ascii.eqb_spec "`" c) as [<- | _]; [discriminate | done].
Qed.

Lemma all_chars_split p sep s :
  all_chars p s = true -> Forall (fun piece => all_chars p piece = true) (split sep s).
Proof.
  induction s as [|c s IH]; simpl.
  - by repeat constructor.
  - intros [Hc Hs]%andb_true_iff. specialize (IH Hs).
    destruct (Ascii.eqb c sep); [by constructor |].
    pose proof (split_nonempty sep s) as Hne.
    destruct (split sep s) as [|piece pieces]; [done |].
    inversion IH; subst. constructor; [| done]. simpl. by rewrite Hc.
Qed.

(** Without fence lines the loop only collects lines into one prose part. *)
Lemma split_loop_no_fence lines : forall parts cur,
  no_fence lines ->
  split_loop lines parts cur false =
    match cur ++ lines with
    | [] => parts
    | _ => parts ++ [(join LF (cur ++ lines), false)]
    end.
Proof.
  induction lines as [|line rest IH]; intros parts cur Hnf; simpl.
  - rewrite (right_id_L [] (++)). by destruct cur.
  - inversion Hnf as [|? ? Hl Hrest]; subst. rewrite Hl, IH by done.
    by rewrite <- (assoc_L (++)).
Qed.

Lemma split_no_fence markdown :
  no_fence (split LF markdown) ->
  _split_preserving_code_blocks markdown = [(markdown, false)].
Proof.
  intros Hnf. unfold _split_preserving_code_blocks.
  rewrite split_loop_no_fence by done. simpl.
  pose proof (split_nonempty LF markdown).
  destruct (split LF markdown) eqn:Hs; [done |]. by rewrite <- Hs, join_split.
Qed.

(** [chunk_markdown] is the concatenation of the chunks of its parts. *)
Lemma foldl_extend {A B} (f : B -> list A) (l : list B) (acc : list A) :
  foldl (fun all_chunks part => all_chunks ++ f part) acc l = acc ++ concat (map f l).
Proof.
  revert acc. induction l as [|x l IH]; intros acc; simpl.
  - by rewrite (right_id_L [] (++)).
  - by rewrite IH, <- (assoc_L (++)).
Qed.

Lemma chunk_markdown_parts self markdown metadata :
  chunk_markdown self markdown metadata true =
  concat (map (chunk_part self metadata) (_split_preserving_code_blocks markdown)).
Proof. unfold chunk_markdown. by rewrite foldl_extend. Qed.

(** C9. Empty or all-whitespace text gives no segment at all, from
    [chunk_text] and from [chunk_markdown] in either mode; in particular
    [chunk_text("")] is the empty list. *)
Theorem blank_input_no_chunks self text metadata :
  blank text ->
  chunk_text self text metadata = [] /\
  (forall preserve_code_blocks,
     chunk_markdown self text metadata preserve_code_blocks = []) /\
  chunk_text self "" metadata = [].
Proof.
  intros Hb.
  assert (chunk_text self text metadata = []) as Hct.
  { unfold chunk_text. by rewrite (proj2 (strip_empty_iff text) Hb). }
  split_and!; [done | | done].
  intros [|]; [| done].
  rewrite chunk_markdown_parts, split_no_fence.
  - simpl. by rewrite Hct.
  - eapply Forall_impl; [by apply all_chars_split |].
    intros line Hl. by apply blank_not_fence.
Qed.

End blank_input.

(** ** Code blocks and chunk metadata *)

Section code_blocks.
Import PyStr.

Example split_sample_markdown :
  _split_preserving_code_blocks sample_markdown =
    [(join LF ["# Test Document"; ""; "Here is some text."; ""], false);
     (sample_code, true);
     (join LF [""; "More text here."; ""], false)].
Proof. reflexivity. Qed.

(** C2. The document is a sequence of groups of lines, every line in
    exactly one group; for every code group, that is every fenced span
    with its delimiter lines, whose text has at most
    [chunk_size] tokens, [chunk_markdown] with [preserve_code_blocks]
    returns the chunks of the groups before it, then exactly one chunk
    whose content is the span's text and whose metadata carries
    [is_code_block = True], then the chunks of the groups after it; a span
    with more tokens is handed to [chunk_text] instead. *)
Theorem chunk_markdown_code_blocks self markdown meta :
  exists gs,
    _split_preserving_code_blocks markdown = map render gs /\
    concat (map fst gs) = split LF markdown /\
    well_grouped gs /\
    forall gs1 g gs2, gs = gs1 ++ (g, true) :: gs2 ->
      let code := join LF g in
      let chunks_of := fun gs' => concat (map (fun gf => chunk_part self meta (render gf)) gs') in
      is_fence code = true /\
      (gs2 <> [] -> closed_code_group g) /\
      (count_tokens self code <= chunk_size self ->
         chunk_markdown self markdown meta true =
           chunks_of gs1 ++
           [{| content := code;
               metadata := <["is_code_block" := VBool true]> (default ∅ meta);
               tokens := count_tokens self code |}] ++
           chunks_of gs2) /\
      (chunk_size self < count_tokens self code ->
         chunk_markdown self markdown meta true =
           chunks_of gs1 ++ chunk_text self code meta ++ chunks_of gs2).
Proof.
  destruct (split_preserving_code_blocks_groups markdown) as (gs & Heq & Hcat & Hwg).
  exists gs. split_and!; [done | done | done |].
  intros gs1 g gs2 -> code chunks_of.
  assert (chunk_markdown self markdown meta true =
          chunks_of gs1 ++ chunk_part self meta (code, true) ++ chunks_of gs2) as Hall.
  { rewrite chunk_markdown_parts, Heq, map_map. unfold chunks_of.
    by rewrite map_app, concat_app. }
  split_and!.
  - assert ((g, true) ∈ gs1 ++ (g, true) :: gs2) as Hin.
    { apply elem_of_app. right. by left. }
    destruct (well_grouped_code_head _ g Hin Hwg) as (o & rest & Hg & Ho).
    unfold code. rewrite Hg. by apply startswith_join.
  - intros Hne. destruct gs2 as [|gf gs2]; [done |].
    by eapply well_grouped_code_closed.
  - intros Hfit. rewrite Hall. unfold chunk_part.
    by rewrite (proj2 (Z.leb_le _ _) Hfit).
  - intros Hbig. rewrite Hall. unfold chunk_part.
    by rewrite (proj2 (Z.leb_gt _ _) Hbig).
Qed.

End code_blocks.

Section chunk_metadata.
Import PyStr.

(** The segments of [chunk_text] carry the caller's metadata with
    [chunk_index] set to their position and [chunk_count] to the number of
    segments, and [chunk_markdown] without [preserve_code_blocks] is
    [chunk_text]. *)
Theorem chunk_text_metadata self text meta i c :
  chunk_text self text meta !! i = Some c ->
  metadata c !! "chunk_index" = Some (VInt (Z.of_nat i)) /\
  metadata c !! "chunk_count" =
    Some (VInt (Z.of_nat (length (chunk_text self text meta)))) /\
  (forall key, key <> "chunk_index" -> key <> "chunk_count" ->
     metadata c !! key = default ∅ meta !! key) /\
  tokens c = count_tokens self (content c) /\
  chunk_markdown self text meta false = chunk_text self text meta.
Proof.
  unfold chunk_markdown, chunk_text.
  destruct (strip text) as [|a s]; [by rewrite lookup_nil |].
  rewrite length_imap. intros Hi.
  apply list_lookup_imap_Some in Hi as (node & _ & ->). simpl.
  split_and!; try done.
  - rewrite lookup_insert_ne by done. by rewrite lookup_insert_eq.
  - by rewrite lookup_insert_eq.
  - intros key H1 H2. by rewrite !lookup_insert_ne.
Qed.

Lemma chunk_text_metadata_sample :
  let text := join LF ["First paragraph."; ""; "Second paragraph."] in
  let c := {| content := "Second paragraph.";
              metadata := <["chunk_count" := VInt 2]> (<["chunk_index" := VInt 1]> ∅);
              tokens := 17 |} in
  chunk_text sample_chunker text None !! 1%nat = Some c /\
  metadata c !! "chunk_index" = Some (VInt 1) /\
  metadata c !! "chunk_count" =
    Some (VInt (Z.of_nat (length (chunk_text sample_chunker text None)))) /\
  (forall key, key <> "chunk_index" -> key <> "chunk_count" ->
     metadata c !! key = (∅ : gmap string pyval) !! key) /\
  tokens c = count_tokens sample_chunker (content c) /\
  chunk_markdown sample_chunker text None false = chunk_text sample_chunker text None.
Proof.
  intros text c.
  assert (chunk_text sample_chunker text None !! 1%nat = Some c) as H
    by (vm_compute; reflexivity).
  split; [exact H |].
  exact (chunk_text_metadata sample_chunker text None 1 c H).
Defined.

(** C1, on the code-block path.  For a document of a prose line, a fenced
    code block that fits, and a prose line, [chunk_markdown] returns three
    segments, but the prose segments both carry [chunk_index = 0] and
    [chunk_count = 1], and the code segment carries neither field. *)
Theorem chunk_markdown_index_restarts self meta :
  let code := join LF ["```"; "x = 1"; "```"] in
  let markdown := join LF ["intro"; "```"; "x = 1"; "```"; "outro"] in
  count_tokens self code <= chunk_size self ->
  get_nodes self "intro" (default ∅ meta) = ["intro"] ->
  get_nodes self "outro" (default ∅ meta) = ["outro"] ->
  default ∅ meta !! "chunk_index" = None ->
  default ∅ meta !! "chunk_count" = None ->
  exists c0 c1 c2,
    chunk_markdown self markdown meta true = [c0; c1; c2] /\
    (content c0, content c1, content c2) = ("intro", code, "outro") /\
    metadata c0 !! "chunk_index" = Some (VInt 0) /\
    metadata c0 !! "chunk_count" = Some (VInt 1) /\
    metadata c1 !! "chunk_index" = None /\
    metadata c1 !! "chunk_count" = None /\
    metadata c1 !! "is_code_block" = Some (VBool true) /\
    metadata c2 !! "chunk_index" = Some (VInt 0) /\
    metadata c2 !! "chunk_count" = Some (VInt 1).
Proof.
  intros code markdown Hfit Hintro Houtro Hidx Hcnt.
  rewrite chunk_markdown_parts.
  assert (_split_preserving_code_blocks markdown =
          [("intro", false); (code, true); ("outro", false)]) as -> by reflexivity.
  cbn [map concat chunk_part]. rewrite (proj2 (Z.leb_le _ _) Hfit).
  assert (forall t, get_nodes self t (default ∅ meta) = [t] -> strip t <> "" ->
            chunk_text self t meta =
              [{| content := t;
                  metadata := <["chunk_count" := VInt 1]>
                                (<["chunk_index" := VInt 0]> (default ∅ meta));
                  tokens := count_tokens self t |}]) as Hone.
  { intros t Ht Hs. unfold chunk_text. rewrite Ht. by destruct (strip t). }
  rewrite (Hone "intro"), (Hone "outro") by done. simpl.
  eexists _, _, _. split; [reflexivity |]. simpl.
  split_and!; try done.
  - rewrite lookup_insert_ne by done. by rewrite lookup_insert_eq.
  - by rewrite lookup_insert_eq.
  - by rewrite lookup_insert_ne.
  - by rewrite lookup_insert_ne.
  - by rewrite lookup_insert_eq.
  - rewrite lookup_insert_ne by done. by rewrite lookup_insert_eq.
  - by rewrite lookup_insert_eq.
Qed.

Lemma chunk_markdown_index_restarts_sample :
  exists c0 c1 c2,
    chunk_markdown sample_chunker
      (join LF ["intro"; "```"; "x = 1"; "```"; "outro"])
      (Some {["url" := VStr "https://x.dev/a"]}) true = [c0; c1; c2] /\
    (content c0, content c1, content c2) =
      ("intro", join LF ["```"; "x = 1"; "```"], "outro") /\
    metadata c0 !! "chunk_index" = Some (VInt 0) /\
    metadata c0 !! "chunk_count" = Some (VInt 1) /\
    metadata c1 !! "chunk_index" = None /\
    metadata c1 !! "chunk_count" = None /\
    metadata c1 !! "is_code_block" = Some (VBool true) /\
    metadata c2 !! "chunk_index" = Some (VInt 0) /\
    metadata c2 !! "chunk_count" = Some (VInt 1).
Proof.
  apply (chunk_markdown_index_restarts sample_chunker
           (Some {["url" := VStr "https://x.dev/a"]}));
    first [ by vm_compute | reflexivity ].
Defined.

End chunk_metadata.

Lemma blank_input_no_chunks_sample :
  let text :=
    PyStr.join PyStr.LF ["  "; ""; String PyStr.NBSP (String PyStr.NEL " ")] in
  blank text /\
  chunk_text sample_chunker text None = [] /\
  (forall preserve_code_blocks,
     chunk_markdown sample_chunker text None preserve_code_blocks = []) /\
  chunk_text sample_chunker "" None = [].
Proof.
  intros text.
  assert (blank text) as Hb by reflexivity.
  split; [exact Hb |].
  exact (blank_input_no_chunks sample_chunker text None Hb).
Defined.

(** Whitespace outside ASCII is whitespace: a text of a no-break space, a
    next-line character and a tab gives no segment, and the same text
    around a word is a segment. *)
Example blank_no_break_space :
  let blanks := String PyStr.NBSP (String PyStr.NEL (String (ascii_of_nat 9) "")) in
  PyStr.strip blanks = "" /\
  chunk_text sample_chunker blanks None = [] /\
  PyStr.strip (blanks +:+ "word" +:+ blanks) = "word" /\
  content <$> chunk_text sample_chunker (blanks +:+ "word" +:+ blanks) None =
    [blanks +:+ "word" +:+ blanks].
Proof. repeat split; vm_compute; reflexivity. Qed.

(** ** URL normalization *)

Section normalization.
Import PyStr.

Lemma rstrip_by_cons p c s :
  rstrip_by p (String c s) =
    match rstrip_by p s with
    | "" => if p c then "" else String c ""
    | r => String c r
    end.
Proof. reflexivity. Qed.

Lemma rstrip_by_keep p c s :
  p c = false -> rstrip_by p (String c s) = String c (rstrip_by p s).
Proof. intros Hc. rewrite rstrip_by_cons, Hc. by destruct (rstrip_by p s). Qed.

Lemma rstrip_by_idem p s : rstrip_by p (rstrip_by p s) = rstrip_by p s.
Proof.
  induction s as [|c s IH]; [done |]. rewrite rstrip_by_cons.
  destruct (rstrip_by p s) as [|x r] eqn:Hr.
  - destruct (p c) eqn:Hc; [done |]. by rewrite rstrip_by_cons, Hc.
  - by rewrite rstrip_by_cons, IH.
Qed.

(** What [rstrip("/")] removes is a run of slashes. *)
Lemma rstrip_char_slashes s :
  exists n, s = rstrip_char "/" s +:+ slashes n.
Proof.
  unfold rstrip_char. induction s as [|c s [n IH]]; [by exists O |].
  rewrite rstrip_by_cons. destruct (rstrip_by (Ascii.eqb "/") s) as [|x r] eqn:Hr.
  - destruct (Ascii.eqb_spec "/" c) as [<- | Hne].
    + exists (S n). by rewrite IH at 1.
    + exists n. rewrite sapp_cons. by rewrite IH at 1.
  - exists n. rewrite sapp_cons. by rewrite IH at 1.
Qed.

Lemma endswith_cons a s p :
  endswith (String a s) p = String.eqb (String a s) p || endswith s p.
Proof. reflexivity. Qed.

Lemma rstrip_char_no_trailing c s : endswith (rstrip_char c s) (String c "") = false.
Proof.
  unfold rstrip_char. induction s as [|x s IH]; [done |].
  rewrite rstrip_by_cons. destruct (rstrip_by (Ascii.eqb c) s) as [|y r] eqn:Hr.
  - destruct (Ascii.eqb_spec c x) as [-> | Hne]; [done |].
    rewrite endswith_cons. apply orb_false_iff. split; [| done].
    apply eqb_neq. congruence.
  - rewrite endswith_cons, IH, orb_false_r. apply eqb_neq. discriminate.
Qed.

Lemma contains_cons_false p c s :
  contains p (String c s) = false -> contains p s = false.
Proof. cbn [contains]. by intros [_ ?]%orb_false_iff. Qed.

Lemma contains_char_cons sep c s :
  contains (String sep "") (String c s) = Ascii.eqb sep c || contains (String sep "") s.
Proof. cbn [contains startswith]. by rewrite andb_true_r. Qed.

Lemma rstrip_by_no_char p sep s :
  contains (String sep "") s = false ->
  contains (String sep "") (rstrip_by p s) = false.
Proof.
  induction s as [|c s IH]; [done |].
  rewrite contains_char_cons. intros [Hc Hs]%orb_false_iff. specialize (IH Hs).
  rewrite rstrip_by_cons. destruct (rstrip_by p s) as [|x r].
  - destruct (p c); [done |]. rewrite contains_char_cons, Hc. done.
  - by rewrite contains_char_cons, Hc, IH.
Qed.

Lemma split_first_no_sep sep s :
  contains (String sep "") (split_first sep s) = false.
Proof.
  induction s as [|c s IH]; [done |]. cbn [split_first].
  destruct (Ascii.eqb_spec c sep) as [-> | Hne]; [done |].
  rewrite contains_char_cons, IH, orb_false_r. apply Ascii.eqb_neq. congruence.
Qed.

(** [s.split(sep)[0]] is [s] up to the first [sep]. *)
Lemma split_first_spec sep s :
  s = split_first sep s \/ exists rest, s = split_first sep s +:+ String sep rest.
Proof.
  induction s as [|c s IH]; [by left |]. cbn [split_first].
  destruct (Ascii.eqb_spec c sep) as [-> | Hne].
  - right. by exists s.
  - destruct IH as [IH | [rest IH]].
    + left. by rewrite <- IH.
    + right. exists rest. rewrite sapp_cons. by rewrite <- IH.
Qed.

Lemma split_first_idem sep s :
  split_first sep (split_first sep s) = split_first sep s.
Proof.
  induction s as [|c s IH]; [done |]. cbn [split_first].
  destruct (Ascii.eqb c sep) eqn:Hc; [done |]. cbn [split_first]. by rewrite Hc, IH.
Qed.

Lemma split_first_id sep s :
  contains (String sep "") s = false -> split_first sep s = s.
Proof.
  induction s as [|c s IH]; [done |]. rewrite contains_char_cons.
  intros [Hc Hs]%orb_false_iff. cbn [split_first].
  rewrite Ascii.eqb_sym, Hc. by rewrite IH.
Qed.

Lemma strip_appended_slash s :
  rstrip_char "/" (split_first "#" (s +:+ "/")) = rstrip_char "/" (split_first "#" s).
Proof.
  unfold rstrip_char. induction s as [|c s IH]; [done |].
  rewrite sapp_cons. cbn [split_first]. destruct (Ascii.eqb c "#"); [done |].
  by rewrite !rstrip_by_cons, IH.
Qed.

(** The third branch of [normalize_url] is the one taken by a URL that
    starts with [http]. *)
Lemma normalize_url_http lib self rest base :
  normalize_url lib self ("http" +:+ rest) base =
  Returned (rstrip_char "/" (split_first "#" ("http" +:+ rest))).
Proof. reflexivity. Qed.

Lemma strip_keeps_http rest :
  exists rest', rstrip_char "/" (split_first "#" ("http" +:+ rest)) = "http" +:+ rest'.
Proof.
  exists (rstrip_char "/" (split_first "#" rest)).
  unfold rstrip_char. rewrite !sapp_cons, sapp_nil_l. cbn [split_first].
  change (Ascii.eqb "h" "#") with false. change (Ascii.eqb "t" "#") with false.
  change (Ascii.eqb "p" "#") with false. cbv iota.
  by rewrite !rstrip_by_keep.
Qed.

(** C8, as the code has it.  For a URL that starts with [http],
    [normalize_url] returns (it calls no library function, and so never
    raises) the part of the URL before the first [#] with all of its
    trailing slashes removed, whatever the base: the result has no fragment
    and no trailing slash, differs from the fragment-free part only by a
    run of slashes, and adding one slash to the URL does not change it
    ([/docs/] and [/docs] normalize to the same URL). *)
Theorem normalize_url_absolute lib self rest base :
  let url := "http" +:+ rest in
  let result := rstrip_char "/" (split_first "#" url) in
  normalize_url lib self url base = Returned result /\
  (url = split_first "#" url \/ exists frag, url = split_first "#" url +:+ String "#" frag) /\
  (exists n, split_first "#" url = result +:+ slashes n) /\
  contains "#" result = false /\
  endswith result "/" = false /\
  normalize_url lib self (url +:+ "/") base = Returned result.
Proof.
  intros url result. unfold result, url.
  split_and!.
  - done.
  - apply split_first_spec.
  - apply rstrip_char_slashes.
  - apply rstrip_by_no_char, split_first_no_sep.
  - apply rstrip_char_no_trailing.
  - rewrite sapp_assoc, normalize_url_http, <- sapp_assoc. f_equal.
    apply strip_appended_slash.
Qed.

(** C8, read literally: one trailing slash would be removed.  On a URL
    that ends in two slashes the code removes both. *)
Lemma normalize_url_removes_every_trailing_slash :
  normalize_url python_urllib x_dev "https://x.dev/docs//" None =
    Returned "https://x.dev/docs" /\
  remove_one_trailing "/" (split_first "#" "https://x.dev/docs//") = "https://x.dev/docs/".
Proof. split; reflexivity. Qed.

(** On URLs that start with [http], normalizing twice is normalizing
    once: the URL normalizes, and the result normalizes to itself. *)
Theorem normalize_url_absolute_idempotent lib self rest base base' :
  exists result,
    normalize_url lib self ("http" +:+ rest) base = Returned result /\
    normalize_url lib self result base' = Returned result.
Proof.
  exists (rstrip_char "/" (split_first "#" ("http" +:+ rest))).
  split; [apply normalize_url_http |].
  destruct (strip_keeps_http rest) as [rest' Hr]. rewrite Hr.
  rewrite normalize_url_http, <- Hr. f_equal.
  rewrite split_first_id by apply rstrip_by_no_char, split_first_no_sep.
  apply rstrip_by_idem.
Qed.

(** C3, at a root-relative URL.  With [urlparse] splitting
    [https://x.dev] into scheme [https] and host [x.dev], [/docs/]
    normalizes to [https://x.dev/docs/], which the first branch returns as
    it is, and normalizing that result again gives [https://x.dev/docs]. *)
Theorem normalize_url_root_relative_twice lib self parsed :
  urlparse lib "https://x.dev" = Returned parsed ->
  Urllib.scheme parsed = "https" ->
  Urllib.netloc parsed = "x.dev" ->
  normalize_url lib self "/docs/" (Some "https://x.dev") = Returned "https://x.dev/docs/" /\
  (once ← normalize_url lib self "/docs/" (Some "https://x.dev");
   normalize_url lib self once (Some "https://x.dev")) = Returned "https://x.dev/docs".
Proof.
  intros Hp Hs Hn.
  assert (normalize_url lib self "/docs/" (Some "https://x.dev") =
          Returned "https://x.dev/docs/") as H.
  { unfold normalize_url. cbn [startswith base_or Ascii.eqb]. simpl.
    rewrite Hp. simpl. by rewrite Hs, Hn. }
  by rewrite H.
Qed.

Lemma normalize_url_root_relative_twice_python :
  normalize_url python_urllib x_dev "/docs/" (Some "https://x.dev") =
    Returned "https://x.dev/docs/" /\
  (once ← normalize_url python_urllib x_dev "/docs/" (Some "https://x.dev");
   normalize_url python_urllib x_dev once (Some "https://x.dev")) =
    Returned "https://x.dev/docs".
Proof.
  apply (normalize_url_root_relative_twice python_urllib x_dev
           {| Urllib.scheme := "https"; Urllib.netloc := "x.dev"; Urllib.path := "";
              Urllib.params := ""; Urllib.query := ""; Urllib.fragment := "" |});
    reflexivity.
Defined.

End normalization.

(** ** The skip predicate *)

Section skip_predicate.
Import PyStr.

Lemma existsb_elem_of {A} (f : A -> bool) (l : list A) :
  existsb f l = true <-> exists x, x ∈ l /\ f x = true.
Proof.
  rewrite existsb_exists. split; intros (x & Hin & Hx); exists x;
    (split; [by apply list_elem_of_In | done]).
Qed.

(** C4, as the code has it.  [should_skip] holds exactly when the URL is
    in the visited set, or does not start with the base URL, or contains a
    configured skip pattern, or its lower-cased form contains one of the
    common non-document patterns anywhere. *)
Theorem should_skip_iff self url :
  should_skip self url = true <->
    url ∈ visited_urls self \/
    ~ prefix_of (base_url self) url \/
    (exists pattern, pattern ∈ skip_patterns self /\ substring_of pattern url) \/
    (exists skip, skip ∈ common_skips /\ substring_of skip (lower url)).
Proof.
  unfold should_skip. case_bool_decide as Hv; [by split; [left |] |].
  destruct (startswith url (base_url self)) eqn:Hp; cbn [negb].
  2:{ split; [| done]. intros _. right. left. intros Hpre.
      apply startswith_spec in Hpre. congruence. }
  apply startswith_spec in Hp.
  destruct (existsb (fun pattern => contains pattern url) (skip_patterns self)) eqn:Hpat.
  { split; [| done]. intros _. right. right. left.
    apply existsb_elem_of in Hpat as (pattern & Hin & Hc).
    exists pattern. split; [done |]. by apply contains_spec. }
  destruct (existsb (fun skip => contains skip (lower url)) common_skips) eqn:Hcom.
  { split; [| done]. intros _. right. right. right.
    apply existsb_elem_of in Hcom as (skip & Hin & Hc).
    exists skip. split; [done |]. by apply contains_spec. }
  split; [done |]. intros [H | [H | [(pattern & Hin & Hc) | (skip & Hin & Hc)]]].
  - done.
  - done.
  - apply contains_spec in Hc.
    assert (existsb (fun pattern => contains pattern url) (skip_patterns self) = true) as Ht
      by (apply existsb_elem_of; eauto).
    congruence.
  - apply contains_spec in Hc.
    assert (existsb (fun skip => contains skip (lower url)) common_skips = true) as Ht
      by (apply existsb_elem_of; eauto).
    congruence.
Qed.

(** A page whose path has [.pdf] in the middle is skipped although no
    alternative of the literal reading holds for it. *)
Lemma should_skip_not_by_suffix :
  should_skip x_dev "https://x.dev/docs/report.pdf.html" = true /\
  ~ skip_by_suffix x_dev "https://x.dev/docs/report.pdf.html".
Proof.
  split; [reflexivity |].
  intros [H | [H | [(pattern & Hin & Hc) | (skip & Hin & Hc)]]].
  - by apply not_elem_of_empty in H.
  - apply H, startswith_spec. reflexivity.
  - apply contains_spec in Hc.
    apply list_elem_of_singleton in Hin as ->. vm_compute in Hc. discriminate.
  - apply endswith_spec in Hc. unfold common_skips in Hin.
    repeat (apply elem_of_cons in Hin as [-> | Hin];
            [vm_compute in Hc; discriminate |]).
    by apply elem_of_nil in Hin.
Qed.

End skip_predicate.

(** ** The traversal *)

Section traversal.

Variable extract : string -> list string.
Variable start_url : string.
Variable max_depth : Z.

Local Abbreviation path := (path extract start_url).
Local Abbreviation within_depth := (within_depth extract start_url max_depth).
Local Abbreviation demanded := (demanded extract start_url).
Local Abbreviation crawl_inv := (crawl_inv extract start_url max_depth).
Local Abbreviation inv_dom := (inv_dom extract start_url max_depth).
Local Abbreviation inv_expanded := (inv_expanded extract start_url max_depth).
Local Abbreviation inv_demand := (inv_demand extract start_url max_depth).
Local Abbreviation ball := (ball extract start_url).
Local Abbreviation page_cost := (cost extract).
Local Abbreviation left_at := (levels_left max_depth).
Local Abbreviation pending_cost := (queue_cost extract max_depth).

Lemma crawl_inv_init : crawl_inv ∅ ∅ [(start_url, 0)].
Proof.
  split.
  - by rewrite dom_empty_L.
  - intros u d H. by rewrite lookup_empty in H.
  - intros u d [= -> ->]%list_elem_of_singleton. split; [done | constructor].
  - simpl. split; [constructor | done].
  - intros u d u' d' H. by rewrite lookup_empty in H.
  - intros v n [[-> ->] | (u & d & H & _)] _.
    + right. by apply list_elem_of_singleton.
    + by rewrite lookup_empty in H.
Qed.

Lemma banded_tail e rest : banded (e :: rest) -> banded rest.
Proof. destruct e. by intros [_ ?]. Qed.

Lemma banded_head u d rest u' d' :
  banded ((u, d) :: rest) -> (u', d') ∈ (u, d) :: rest -> d <= d' <= d + 1.
Proof.
  intros [Hall _] [Heq | Hin]%elem_of_cons.
  - injection Heq as -> ->. lia.
  - rewrite Forall_forall in Hall. exact (Hall (u', d') Hin).
Qed.

Lemma banded_extend u d rest links :
  banded ((u, d) :: rest) ->
  banded (rest ++ map (fun link => (link, d + 1)) links).
Proof.
  intros [Hall Hb]. induction rest as [|[u' d'] rest IH]; simpl.
  - induction links as [|l links IHl]; simpl; [done |]. split; [| done].
    apply Forall_forall. intros e (l' & -> & _)%list_elem_of_fmap. simpl. lia.
  - inversion Hall as [|? ? Hd' Hrest]; subst. simpl in Hd'.
    destruct Hb as [Hall' Hb']. split; [| by apply IH].
    apply Forall_app. split; [done |].
    apply Forall_forall. intros e (l' & -> & _)%list_elem_of_fmap. simpl. lia.
Qed.

(** An entry that is skipped leaves the invariant in place. *)
Lemma crawl_inv_skip expanded all_urls url depth rest :
  crawl_inv expanded all_urls ((url, depth) :: rest) ->
  url ∈ all_urls \/ max_depth < depth ->
  crawl_inv expanded all_urls rest.
Proof.
  intros [Hdom Hexp Hq Hband Hord Hdem] Hskip. split.
  - done.
  - done.
  - intros u d Hin. apply Hq. by right.
  - by eapply banded_tail.
  - intros u d u' d' Hu Hin. eapply Hord; [done | by right].
  - intros v n Hv Hn. destruct (Hdem v n Hv Hn) as [? | Hin]; [by left |].
    apply elem_of_cons in Hin as [Heq | Hin]; [| by right].
    injection Heq as -> ->. destruct Hskip as [Hvis | Hdeep]; [| lia].
    rewrite Hdom in Hvis. apply elem_of_dom in Hvis as [d Hd].
    left. exists d. split; [done |]. eapply (Hord url d url depth); [done | by left].
Qed.

(** An entry that is expanded extends the invariant with its depth. *)
Lemma crawl_inv_expand expanded all_urls url depth rest :
  crawl_inv expanded all_urls ((url, depth) :: rest) ->
  url ∉ all_urls -> depth <= max_depth ->
  crawl_inv (<[url := depth]> expanded) ({[url]} ∪ all_urls)
    (rest ++ map (fun link => (link, depth + 1))
                 (filter (fun link => link ∉ {[url]} ∪ all_urls) (extract url))).
Proof.
  intros [Hdom Hexp Hq Hband Hord Hdem] Hnew Hdepth.
  assert (expanded !! url = None) as Hnone.
  { apply not_elem_of_dom. by rewrite <- Hdom. }
  destruct (Hq url depth) as [Hpos Hpath]; [by left |].
  split.
  - by rewrite dom_insert_L, Hdom.
  - intros u d. rewrite lookup_insert. case_decide as Hu.
    + intros [= <-]. subst u. split; [lia | done].
    + apply Hexp.
  - intros u d [Hin | Hin]%elem_of_app.
    + apply Hq. by right.
    + apply list_elem_of_fmap in Hin as (link & [= -> ->] & Hlink).
      apply list_elem_of_filter in Hlink as [_ Hlink]. split; [lia |].
      replace (Z.to_nat (depth + 1)) with (S (Z.to_nat depth)) by lia.
      by eapply path_step.
  - by eapply banded_extend.
  - intros u d u' d' Hu Hin.
    assert (d <= depth) as Hle.
    { rewrite lookup_insert in Hu. case_decide.
      - injection Hu as <-. lia.
      - eapply (Hord u d url depth); [done | by left]. }
    apply elem_of_app in Hin as [Hin | Hin].
    + pose proof (banded_head url depth rest u' d' Hband) as Hb.
      assert ((u', d') ∈ (url, depth) :: rest) as Hin' by by right.
      specialize (Hb Hin'). lia.
    + apply list_elem_of_fmap in Hin as (link & [= -> ->] & _). lia.
  - intros v n Hv Hn.
    assert (forall d, expanded !! v = Some d -> d <= n ->
              exists d', <[url := depth]> expanded !! v = Some d' /\ d' <= n) as Hkeep.
    { intros d Hd Hle. exists d. split; [| done].
      rewrite lookup_insert_ne; [done |]. intros <-. congruence. }
    assert (demanded expanded v n ->
            (exists d, <[url := depth]> expanded !! v = Some d /\ d <= n) \/
            (v, n) ∈ rest ++ map (fun link => (link, depth + 1))
                 (filter (fun link => link ∉ {[url]} ∪ all_urls) (extract url)))
      as Hold.
    { intros Hv'. destruct (Hdem v n Hv' Hn) as [(d & Hd & Hle) | Hin].
      - left. by eapply Hkeep.
      - apply elem_of_cons in Hin as [[= -> ->] | Hin].
        + left. exists depth. split; [by rewrite lookup_insert_eq | lia].
        + right. apply elem_of_app. by left. }
    destruct Hv as [Hstart | (u & d & Hu & Hlink & ->)].
    { apply Hold. by left. }
    rewrite lookup_insert in Hu. case_decide as Hcase.
    2:{ apply Hold. right. by exists u, d. }
    injection Hu as <-. subst u.
    destruct (decide (v ∈ {[url]} ∪ all_urls)) as [Hin | Hnotin].
    + left. apply elem_of_union in Hin as [->%elem_of_singleton | Hin].
      * exists depth. split; [by rewrite lookup_insert_eq | lia].
      * rewrite Hdom in Hin. apply elem_of_dom in Hin as [d Hd].
        apply (Hkeep d Hd).
        assert (d <= depth) by (eapply (Hord v d url depth); [done | by left]). lia.
    + right. apply elem_of_app. right. apply list_elem_of_fmap.
      exists v. split; [done |]. by apply list_elem_of_filter.
Qed.

(** One iteration, by cases. *)
Lemma crawl_step_skip all_urls url depth rest :
  url ∈ all_urls \/ max_depth < depth ->
  crawl_step extract max_depth all_urls url depth rest = (all_urls, rest).
Proof.
  intros Hskip. unfold crawl_step.
  destruct Hskip as [Hin | Hdeep].
  - by rewrite (bool_decide_eq_true_2 _ Hin).
  - rewrite (proj2 (Z.gtb_gt _ _)) by lia. by rewrite orb_true_r.
Qed.

Lemma crawl_step_expand all_urls url depth rest :
  url ∉ all_urls -> depth <= max_depth ->
  crawl_step extract max_depth all_urls url depth rest =
    ({[url]} ∪ all_urls,
     rest ++ map (fun link => (link, depth + 1))
                 (filter (fun link => link ∉ {[url]} ∪ all_urls) (extract url))).
Proof.
  intros Hnew Hdepth. unfold crawl_step.
  rewrite (bool_decide_eq_false_2 _ Hnew).
  assert ((depth >? max_depth) = false) as ->; [| done].
  rewrite Z.gtb_ltb. apply Z.ltb_ge. lia.
Qed.

Lemma path_in_ball n u : path n u -> forall k, (n <= k)%nat -> u ∈ ball k.
Proof.
  induction 1 as [|n u v Hp IH Hv]; intros k Hk.
  - induction k as [|k IHk]; simpl; [by left |].
    apply elem_of_app. left. apply IHk. lia.
  - destruct k as [|k]; [lia |]. simpl. apply elem_of_app. right.
    apply list_elem_of_In, in_flat_map. exists u.
    split; apply list_elem_of_In; [apply IH; lia | done].
Qed.

Lemma crawl_inv_bounded expanded all_urls to_visit :
  crawl_inv expanded all_urls to_visit ->
  all_urls ⊆ list_to_set (ball (Z.to_nat max_depth)).
Proof.
  intros Hinv u Hu. rewrite (inv_dom _ _ _ Hinv) in Hu.
  apply elem_of_dom in Hu as [d Hd].
  destruct (inv_expanded _ _ _ Hinv u d Hd) as [Hr Hp].
  apply elem_of_list_to_set. apply (path_in_ball _ _ Hp). lia.
Qed.

(** The loop ends, and the invariant holds with the queue empty.  The
    measure is the number of URLs within [max_depth] steps that are not
    visited yet, then the length of the queue. *)
Lemma crawl_loop_terminates (m : nat) : forall to_visit all_urls expanded,
  crawl_inv expanded all_urls to_visit ->
  (size (list_to_set (ball (Z.to_nat max_depth)) ∖ all_urls : gset string) < m)%nat ->
  exists fuel final expanded',
    crawl_loop extract max_depth fuel all_urls to_visit = Some final /\
    crawl_inv expanded' final [].
Proof.
  induction m as [|m IHm]; [intros; lia |].
  intros to_visit. induction to_visit as [|[url depth] rest IHq];
    intros all_urls expanded Hinv Hsize.
  - exists O, all_urls, expanded. by split.
  - destruct (decide (url ∈ all_urls \/ max_depth < depth)) as [Hskip | Hgo].
    + destruct (IHq all_urls expanded (crawl_inv_skip _ _ _ _ _ Hinv Hskip) Hsize)
        as (fuel & final & expanded' & Hloop & Hfinal).
      exists (S fuel), final, expanded'. split; [| done].
      simpl. by rewrite crawl_step_skip.
    + assert (url ∉ all_urls) as Hnew by tauto.
      assert (depth <= max_depth) as Hdepth by lia.
      pose proof (crawl_inv_expand _ _ _ _ _ Hinv Hnew Hdepth) as Hinv'.
      destruct (IHm _ _ _ Hinv') as (fuel & final & expanded' & Hloop & Hfinal).
      * assert (url ∈ (list_to_set (ball (Z.to_nat max_depth)) : gset string)) as Hball.
        { eapply (crawl_inv_bounded _ _ _ Hinv'). set_solver. }
        assert (list_to_set (ball (Z.to_nat max_depth)) ∖ ({[url]} ∪ all_urls)
                  ⊂ (list_to_set (ball (Z.to_nat max_depth)) ∖ all_urls : gset string))
          as Hsub.
        { split.
          - intros x. rewrite !elem_of_difference, elem_of_union. tauto.
          - intros Hsub. specialize (Hsub url).
            rewrite !elem_of_difference, elem_of_union, elem_of_singleton in Hsub. tauto. }
        apply subset_size in Hsub. lia.
      * exists (S fuel), final, expanded'. split; [| done].
        simpl. by rewrite crawl_step_expand.
Qed.

(** What the invariant says once the queue is empty. *)
Lemma crawl_inv_final expanded final :
  crawl_inv expanded final [] -> forall u, u ∈ final <-> within_depth u.
Proof.
  intros Hinv u. split.
  - intros Hu. rewrite (inv_dom _ _ _ Hinv) in Hu.
    apply elem_of_dom in Hu as [d Hd].
    destruct (inv_expanded _ _ _ Hinv u d Hd) as [Hr Hp].
    exists (Z.to_nat d). split; [done | lia].
  - intros (n & Hp & Hn). rewrite (inv_dom _ _ _ Hinv).
    assert (exists d, expanded !! u = Some d /\ d <= Z.of_nat n) as (d & Hd & _);
      [| by apply elem_of_dom].
    induction Hp as [|n u v Hp IH Hv].
    + destruct (inv_demand _ _ _ Hinv start_url 0) as [? | Hin];
        [by left | lia | done | by apply elem_of_nil in Hin].
    + destruct IH as (d & Hd & Hle); [lia |].
      destruct (inv_demand _ _ _ Hinv v (d + 1)) as [(d' & Hd' & Hle') | Hin].
      * right. by exists u, d.
      * lia.
      * exists d'. split; [done | lia].
      * by apply elem_of_nil in Hin.
Qed.

Lemma crawl_loop_more_fuel fuel : forall all_urls to_visit final,
  crawl_loop extract max_depth fuel all_urls to_visit = Some final ->
  forall fuel', (fuel <= fuel')%nat ->
  crawl_loop extract max_depth fuel' all_urls to_visit = Some final.
Proof.
  induction fuel as [|fuel IH]; intros all_urls to_visit final Hloop fuel' Hle.
  - destruct to_visit as [|[url depth] rest]; [| done].
    by destruct fuel'.
  - destruct to_visit as [|[url depth] rest]; [by destruct fuel' |].
    destruct fuel' as [|fuel']; [lia |]. simpl in *.
    destruct (crawl_step extract max_depth all_urls url depth rest) as [all' q'].
    apply IH; [done | lia].
Qed.

(** The visited set only grows. *)
Lemma crawl_loop_grows fuel : forall all_urls to_visit final,
  crawl_loop extract max_depth fuel all_urls to_visit = Some final ->
  all_urls ⊆ final.
Proof.
  induction fuel as [|fuel IH]; intros all_urls to_visit final Hloop.
  - destruct to_visit as [|[url depth] rest]; [| done]. by injection Hloop as ->.
  - destruct to_visit as [|[url depth] rest]; [by injection Hloop as -> |].
    simpl in Hloop. unfold crawl_step in Hloop.
    destruct (bool_decide (url ∈ all_urls) || (depth >? max_depth)).
    + by eapply IH.
    + apply IH in Hloop. set_solver.
Qed.

(** The traversal ends and discovers the URLs within [max_depth] steps. *)
Lemma crawl_from_discovers :
  exists fuel discovered,
    (forall fuel', (fuel <= fuel')%nat ->
       crawl_from extract start_url max_depth fuel' = Some discovered) /\
    (forall u, u ∈ discovered <-> within_depth u).
Proof.
  destruct (crawl_loop_terminates
              (S (size (list_to_set (ball (Z.to_nat max_depth)) ∖ ∅ : gset string)))
              [(start_url, 0)] ∅ ∅ crawl_inv_init)
    as (fuel & final & expanded & Hloop & Hfinal); [lia |].
  exists fuel, final. split.
  - intros fuel' Hle. by eapply crawl_loop_more_fuel.
  - by eapply crawl_inv_final.
Qed.

(** *** The loop ends from every state *)

Lemma cost_pos n u : (1 <= page_cost n u)%nat.
Proof. destruct n; simpl; lia. Qed.

Lemma sum_list_filter_le (f : string -> nat) (P : string -> Prop)
    `{forall x, Decision (P x)} (l : list string) :
  (sum_list (map f (filter P l)) <= sum_list (map f l))%nat.
Proof.
  induction l as [|x l IH]; [done |]. rewrite filter_cons.
  destruct (decide (P x)); simpl; lia.
Qed.

Lemma queue_cost_app q1 q2 :
  pending_cost (q1 ++ q2) = (pending_cost q1 + pending_cost q2)%nat.
Proof. unfold queue_cost. by rewrite map_app, sum_list_with_app. Qed.

Lemma queue_cost_links (P : string -> Prop) `{forall x, Decision (P x)} u depth :
  depth <= max_depth ->
  (S (pending_cost (map (fun link => (link, (depth + 1)%Z)) (filter P (extract u))))
   <= page_cost (left_at depth) u)%nat.
Proof.
  intros Hdepth. unfold queue_cost, levels_left.
  replace (Z.to_nat (max_depth + 1 - depth)) with (S (Z.to_nat (max_depth + 1 - (depth + 1))))
    by lia.
  cbn [cost]. rewrite map_map. cbn [fst snd].
  pose proof (sum_list_filter_le
                (page_cost (Z.to_nat (max_depth + 1 - (depth + 1)))) P (extract u))
    as Hle.
  apply le_n_S. exact Hle.
Qed.

Lemma queue_cost_cons url depth rest :
  pending_cost ((url, depth) :: rest) =
    (page_cost (left_at depth) url + pending_cost rest)%nat.
Proof. reflexivity. Qed.

Lemma crawl_loop_ends (m : nat) : forall to_visit all_urls,
  (pending_cost to_visit <= m)%nat ->
  exists final, crawl_loop extract max_depth m all_urls to_visit = Some final.
Proof.
  induction m as [|m IH]; intros to_visit all_urls Hcost.
  - destruct to_visit as [|[url depth] rest]; [by eexists |].
    rewrite queue_cost_cons in Hcost.
    pose proof (cost_pos (left_at depth) url). lia.
  - destruct to_visit as [|[url depth] rest]; [by eexists |].
    rewrite queue_cost_cons in Hcost. cbn [crawl_loop].
    destruct (decide (url ∈ all_urls \/ max_depth < depth)) as [Hskip | Hgo].
    + rewrite crawl_step_skip by done. apply IH.
      pose proof (cost_pos (left_at depth) url). lia.
    + rewrite crawl_step_expand by (tauto || lia). apply IH.
      rewrite queue_cost_app.
      pose proof (queue_cost_links (fun link => link ∉ {[url]} ∪ all_urls) url depth
                    ltac:(lia)).
      lia.
Qed.

(** From every state the loop ends, whatever the pages give. *)
Lemma crawl_loop_total all_urls to_visit :
  exists fuel final, forall fuel', (fuel <= fuel')%nat ->
    crawl_loop extract max_depth fuel' all_urls to_visit = Some final.
Proof.
  destruct (crawl_loop_ends (pending_cost to_visit) to_visit all_urls) as [final Hloop]; [lia |].
  exists (pending_cost to_visit), final. intros fuel' Hle. by eapply crawl_loop_more_fuel.
Qed.

End traversal.

(** ** The traversal on the scenario's site *)

Example site_links :
  extract_links_from_page python_urllib site x_dev "https://x.dev/a" (Some "main") =
    ["https://x.dev/b"; "https://x.dev/c"] /\
  extract_links_from_page python_urllib site x_dev "https://x.dev/b" (Some "main") =
    ["https://x.dev/d"; "https://x.dev/a"] /\
  extract_links_from_page python_urllib site x_dev "https://x.dev/a" (Some "nav") = [] /\
  extract_links_from_page python_urllib site x_dev "https://x.dev/c" (Some "main") = [].
Proof. repeat split; vm_compute; reflexivity. Qed.

Example site_crawl :
  list_to_set <$> crawl_recursively python_urllib site x_dev "https://x.dev/a" 1 (Some "main") 10 =
    Some ({["https://x.dev/a"; "https://x.dev/b"; "https://x.dev/c"]} : gset string).
Proof. vm_compute. reflexivity. Qed.

Section crawl_claims.

(** C5. Each iteration takes the entry at the front of the queue; it
    skips the entry exactly when its URL is already in [all_urls] or its
    depth exceeds [max_depth], and otherwise records the URL and appends its
    links that are not recorded yet, one level deeper, at the back.  For
    every link-extraction result, start URL and [max_depth] the loop ends,
    with [all_urls] holding exactly the URLs that some chain of at most
    [max_depth] links leads to from the start URL.  On the scenario's site
    with [max_depth = 1] the result is [{a, b, c}], without [d]. *)
Theorem crawl_breadth_first (extract : string -> list string)
    (start_url : string) (max_depth : Z) :
  (forall fuel all_urls url depth rest,
     crawl_loop extract max_depth (S fuel) all_urls ((url, depth) :: rest) =
       if decide (url ∈ all_urls \/ max_depth < depth)
       then crawl_loop extract max_depth fuel all_urls rest
       else crawl_loop extract max_depth fuel ({[url]} ∪ all_urls)
              (rest ++ map (fun link => (link, depth + 1))
                           (filter (fun link => link ∉ {[url]} ∪ all_urls) (extract url)))) /\
  (exists fuel discovered,
     (forall fuel', (fuel <= fuel')%nat ->
        crawl_from extract start_url max_depth fuel' = Some discovered) /\
     (forall u, u ∈ discovered <->
        exists n, path extract start_url n u /\ Z.of_nat n <= max_depth)) /\
  crawl_from scenario_links "https://x.dev/a" 1 4 =
    Some {["https://x.dev/a"; "https://x.dev/b"; "https://x.dev/c"]} /\
  "https://x.dev/d" ∉
    ({["https://x.dev/a"; "https://x.dev/b"; "https://x.dev/c"]} : gset string).
Proof.
  split_and!.
  - intros fuel all_urls url depth rest. cbn [crawl_loop].
    destruct (decide (url ∈ all_urls \/ max_depth < depth)) as [Hskip | Hgo].
    + by rewrite crawl_step_skip.
    + rewrite crawl_step_expand; [done | tauto | lia].
  - apply crawl_from_discovers.
  - vm_compute. reflexivity.
  - intros Hd. rewrite !elem_of_union, !elem_of_singleton in Hd.
    by destruct Hd as [[? | ?] | ?].
Qed.

(** *** The loops over URLs that are normalized *)

Lemma normalized_to_elem lib self base urls normalized url :
  normalized_to lib self base urls normalized -> url ∈ urls ->
  exists n, n ∈ normalized /\ normalize_url lib self url base = Returned n.
Proof.
  induction 1 as [|u n urls normalized Hu Hrest IH]; [by intros ?%elem_of_nil |].
  intros [-> | Hin]%elem_of_cons.
  - exists n. split; [by left | done].
  - destruct (IH Hin) as (n' & Hn' & Heq). exists n'. split; [by right | done].
Qed.

Lemma normalized_to_elem_inv lib self base urls normalized n :
  normalized_to lib self base urls normalized -> n ∈ normalized ->
  exists url, url ∈ urls /\ normalize_url lib self url base = Returned n.
Proof.
  induction 1 as [|u n' urls normalized Hu Hrest IH]; [by intros ?%elem_of_nil |].
  intros [-> | Hin]%elem_of_cons.
  - exists u. split; [by left | done].
  - destruct (IH Hin) as (u' & Hu' & Heq). exists u'. split; [by right | done].
Qed.

(** Either every URL of a list normalizes, or there is a first one on which
    [normalize_url] raises. *)
Lemma normalized_or_raised lib self base urls :
  (exists normalized, normalized_to lib self base urls normalized) \/
  (exists before url after e,
     urls = before ++ url :: after /\
     (exists normalized, normalized_to lib self base before normalized) /\
     normalize_url lib self url base = Raised e).
Proof.
  induction urls as [|u urls IH].
  - left. exists []. constructor.
  - destruct (normalize_url lib self u base) as [n | e] eqn:Hu.
    + destruct IH as [[normalized Hall] | (before & url & after & e & -> & [ns Hb] & He)].
      * left. exists (n :: normalized). by constructor.
      * right. exists (u :: before), url, after, e. split_and!; [done | | done].
        exists (n :: ns). by constructor.
    + right. exists [], u, urls, e. split_and!; [done | | done].
      exists []. constructor.
Qed.

Lemma links_loop_returned lib self url hrefs normalized :
  normalized_to lib self (Some url) hrefs normalized ->
  forall links,
    links_loop lib self url hrefs links =
      Returned (links ++ filter (fun link => should_skip self link = false) normalized).
Proof.
  induction 1 as [|href n hrefs normalized Hn Hrest IH]; intros links.
  - cbn [links_loop]. by rewrite filter_nil, (right_id_L [] (++)).
  - cbn [links_loop]. rewrite Hn. cbn [mbind outcome_bind]. rewrite filter_cons.
    destruct (should_skip self n) eqn:Hskip.
    + rewrite decide_False by done. apply IH.
    + rewrite decide_True by done. rewrite IH. by rewrite <- (assoc_L (++)).
Qed.

Lemma links_loop_raised lib self url before normalized href after e :
  normalized_to lib self (Some url) before normalized ->
  normalize_url lib self href (Some url) = Raised e ->
  forall links, links_loop lib self url (before ++ href :: after) links = Raised e.
Proof.
  intros Hb He. induction Hb as [|u n before normalized Hn Hrest IH]; intros links.
  - cbn [app links_loop]. by rewrite He.
  - cbn [app links_loop]. rewrite Hn. cbn [mbind outcome_bind].
    destruct (should_skip self n); apply IH.
Qed.

Lemma links_loop_raised_inv lib self url hrefs : forall links e,
  links_loop lib self url hrefs links = Raised e ->
  exists href, href ∈ hrefs /\ normalize_url lib self href (Some url) = Raised e.
Proof.
  induction hrefs as [|href hrefs IH]; intros links e Hloop; [done |].
  cbn [links_loop] in Hloop.
  destruct (normalize_url lib self href (Some url)) as [n | e'] eqn:Hn.
  - cbn [mbind outcome_bind] in Hloop.
    destruct (should_skip self n); apply IH in Hloop as (h & Hh & He);
      exists h; (split; [by right | done]).
  - injection Hloop as ->. exists href. split; [by left | done].
Qed.

Lemma filter_loop_returned lib self urls normalized :
  normalized_to lib self None urls normalized ->
  forall filtered seen,
    filter_loop lib self filtered seen urls =
      Returned (filtered ++
                unique_from seen (filter (fun u => should_skip self u = false) normalized)).
Proof.
  induction 1 as [|url n urls normalized Hn Hrest IH]; intros filtered seen.
  - cbn [filter_loop]. rewrite filter_nil. cbn [unique_from].
    by rewrite (right_id_L [] (++)).
  - cbn [filter_loop]. rewrite Hn. cbn [mbind outcome_bind]. rewrite filter_cons.
    destruct (should_skip self n) eqn:Hskip.
    + rewrite decide_False by done. apply IH.
    + rewrite decide_True by done. cbn [unique_from].
      case_bool_decide; [apply IH |]. rewrite IH. by rewrite <- (assoc_L (++)).
Qed.

Lemma filter_loop_raised lib self before normalized url after e :
  normalized_to lib self None before normalized ->
  normalize_url lib self url None = Raised e ->
  forall filtered seen,
    filter_loop lib self filtered seen (before ++ url :: after) = Raised e.
Proof.
  intros Hb He. induction Hb as [|u n before normalized Hn Hrest IH]; intros filtered seen.
  - cbn [app filter_loop]. by rewrite He.
  - cbn [app filter_loop]. rewrite Hn. cbn [mbind outcome_bind].
    destruct (should_skip self n); [apply IH |]. case_bool_decide; apply IH.
Qed.

(** *** A page whose links cannot be extracted *)

Lemma extraction_fails_no_links lib web self url selector :
  extraction_fails lib web self url selector ->
  extract_links_from_page lib web self url selector = [].
Proof.
  unfold extract_links_from_page, extract_links_body.
  intros [e H | html e H1 H2 | html soup e H1 H2 H3 | html soup H1 H2 H3
          | html soup container e H1 H2 H3 H4
          | html soup container hrefs href e H1 H2 H3 H4 Hin He].
  - by rewrite H.
  - rewrite H1. simpl. by rewrite H2.
  - rewrite H1. simpl. rewrite H2. simpl. by rewrite H3.
  - rewrite H1. simpl. rewrite H2. simpl. by rewrite H3.
  - rewrite H1. simpl. rewrite H2. simpl. rewrite H3. simpl. by rewrite H4.
  - rewrite H1. simpl. rewrite H2. simpl. rewrite H3. simpl. rewrite H4. simpl.
    destruct (normalized_or_raised lib self (Some url) hrefs)
      as [[normalized Hall] | (before & bad & after & e' & -> & [ns Hb] & He')].
    + destruct (normalized_to_elem _ _ _ _ _ _ Hall Hin) as (n & _ & Hn). congruence.
    + by rewrite (links_loop_raised _ _ _ _ _ _ _ _ Hb He').
Qed.

Lemma extraction_raises_fails lib web self url selector e :
  extract_links_body lib web self url selector = Raised e ->
  extraction_fails lib web self url selector.
Proof.
  unfold extract_links_body.
  destruct (fetch_url web url) as [html | e1] eqn:H1; [| intros _; by eapply fetch_fails].
  cbn [mbind outcome_bind].
  destruct (BeautifulSoup web html) as [soup | e2] eqn:H2;
    [| intros _; by eapply parse_fails].
  cbn [mbind outcome_bind].
  destruct (container_of web soup selector) as [[container |] | e3] eqn:H3;
    [| done | intros _; by eapply select_fails].
  cbn [mbind outcome_bind].
  destruct (find_all_href web container) as [hrefs | e4] eqn:H4;
    [| intros _; by eapply find_all_fails].
  cbn [mbind outcome_bind].
  destruct (links_loop lib self url hrefs []) as [links | e5] eqn:H5; [done |].
  intros _. apply links_loop_raised_inv in H5 as (href & Hin & He).
  by eapply normalize_fails.
Qed.

(** C7. Link extraction returns a list whatever happens: every exception
    raised while the links of a page are extracted is one of the failures
    above, and when a page fails in any of these ways, the list is empty.
    The traversal goes on: from every state with the failing page at the
    front of the queue the loop ends, and when the page is new and not too
    deep, it ends with what the remaining queue gives once the page is
    recorded, nothing added, the page being in the final set; a queue entry
    for a page already recorded is skipped.  A traversal that reaches the
    failing page ends with the page in its result. *)
Theorem extraction_failure_continues lib web self url selector :
  extraction_fails lib web self url selector ->
  let extract := fun u => extract_links_from_page lib web self u selector in
  (forall page e,
     extract_links_body lib web self page selector = Raised e ->
     extraction_fails lib web self page selector /\ extract page = []) /\
  extract url = [] /\
  (forall max_depth all_urls depth rest,
     exists fuel final,
       (forall fuel', (fuel <= fuel')%nat ->
          crawl_loop extract max_depth fuel' all_urls ((url, depth) :: rest) = Some final) /\
       (url ∉ all_urls -> depth <= max_depth ->
          url ∈ final /\
          forall fuel', (fuel <= fuel')%nat ->
            crawl_loop extract max_depth fuel' ({[url]} ∪ all_urls) rest = Some final) /\
       (url ∈ all_urls ->
          forall fuel', (fuel <= fuel')%nat ->
            crawl_loop extract max_depth fuel' all_urls rest = Some final)) /\
  (forall start_url max_depth,
     exists fuel final,
       (forall fuel', (fuel <= fuel')%nat ->
          crawl_from extract start_url max_depth fuel' = Some final) /\
       (within_depth extract start_url max_depth url -> url ∈ final)).
Proof.
  intros Hfail extract.
  assert (extract url = []) as Hnone by by apply extraction_fails_no_links.
  split_and!; [| done | |].
  - intros page e Hraise. apply extraction_raises_fails in Hraise.
    split; [done | by apply extraction_fails_no_links].
  - intros max_depth all_urls depth rest.
    destruct (decide (url ∈ all_urls \/ max_depth < depth)) as [Hskip | Hgo].
    + destruct (crawl_loop_total extract max_depth all_urls rest) as (fuel & final & Hrun).
      exists (S fuel), final. split_and!.
      * intros [|fuel'] Hle; [lia |]. cbn [crawl_loop].
        rewrite crawl_step_skip by done. apply Hrun. lia.
      * intros Hnew Hdepth. destruct Hskip; [done | lia].
      * intros _ fuel' Hle. apply Hrun. lia.
    + destruct (crawl_loop_total extract max_depth ({[url]} ∪ all_urls) rest)
        as (fuel & final & Hrun).
      exists (S fuel), final. split_and!.
      * intros [|fuel'] Hle; [lia |]. cbn [crawl_loop].
        rewrite crawl_step_expand by (tauto || lia).
        rewrite Hnone. cbn [filter map list_filter]. rewrite (right_id_L [] (++)).
        apply Hrun. lia.
      * intros _ _. split; [| intros fuel' Hle; apply Hrun; lia].
        pose proof (crawl_loop_grows _ _ _ _ _ _ (Hrun fuel ltac:(lia))) as Hsub.
        apply Hsub, elem_of_union_l. by apply elem_of_singleton.
      * intros Hin. tauto.
  - intros start_url max_depth.
    destruct (crawl_from_discovers extract start_url max_depth)
      as (fuel & discovered & Hrun & Hiff).
    exists fuel, discovered. split; [done |]. intros Hreach. by apply Hiff.
Qed.

Lemma extraction_failure_continues_site :
  let extract := fun u => extract_links_from_page python_urllib site x_dev u (Some "main") in
  let url := "https://x.dev/c" in
  extraction_fails python_urllib site x_dev url (Some "main") /\
  (forall page e,
     extract_links_body python_urllib site x_dev page (Some "main") = Raised e ->
     extraction_fails python_urllib site x_dev page (Some "main") /\ extract page = []) /\
  extract url = [] /\
  (forall max_depth all_urls depth rest,
     exists fuel final,
       (forall fuel', (fuel <= fuel')%nat ->
          crawl_loop extract max_depth fuel' all_urls ((url, depth) :: rest) = Some final) /\
       (url ∉ all_urls -> depth <= max_depth ->
          url ∈ final /\
          forall fuel', (fuel <= fuel')%nat ->
            crawl_loop extract max_depth fuel' ({[url]} ∪ all_urls) rest = Some final) /\
       (url ∈ all_urls ->
          forall fuel', (fuel <= fuel')%nat ->
            crawl_loop extract max_depth fuel' all_urls rest = Some final)) /\
  (forall start_url max_depth,
     exists fuel final,
       (forall fuel', (fuel <= fuel')%nat ->
          crawl_from extract start_url max_depth fuel' = Some final) /\
       (within_depth extract start_url max_depth url -> url ∈ final)).
Proof.
  intros extract url.
  assert (extraction_fails python_urllib site x_dev url (Some "main")) as Hfail
    by (by apply (fetch_fails python_urllib site x_dev url (Some "main") "HTTP 404")).
  split; [exact Hfail |].
  exact (extraction_failure_continues python_urllib site x_dev url (Some "main") Hfail).
Defined.

(** A page with an [href] that [urljoin] rejects gives no links at all,
    also not the links before and after it. *)
Example malformed_href_no_links :
  extraction_fails python_urllib site x_dev "https://x.dev/e" (Some "main") /\
  extract_links_body python_urllib site x_dev "https://x.dev/e" (Some "main") =
    Raised "ValueError" /\
  extract_links_from_page python_urllib site x_dev "https://x.dev/e" (Some "main") = [].
Proof.
  split_and!; [| vm_compute; reflexivity..].
  apply (normalize_fails python_urllib site x_dev "https://x.dev/e" (Some "main")
           (PyStr.join PyStr.LF ["/d"; "ftp://[bad/x"; "/b"])
           ["/d"; "ftp://[bad/x"; "/b"] ["/d"; "ftp://[bad/x"; "/b"]
           ["/d"; "ftp://[bad/x"; "/b"] "ftp://[bad/x" "ValueError");
    try (vm_compute; reflexivity).
  set_solver.
Qed.

End crawl_claims.

Section seed_policy.

(** The duplicate-removing loop keeps the first occurrence of every link
    that is not in [seen], in order. *)
Lemma unique_from_spec links : forall seen,
  NoDup (unique_from seen links) /\
  forall x, x ∈ unique_from seen links <-> x ∈ links /\ x ∉ seen.
Proof.
  induction links as [|a links IH]; intros seen; simpl.
  - split; [constructor |]. intros x. split; [by intros ?%elem_of_nil | by intros [?%elem_of_nil _]].
  - case_bool_decide as Ha.
    + destruct (IH seen) as [Hnd Hin]. split; [done |].
      intros x. rewrite Hin, elem_of_cons. split; [tauto |].
      intros [[-> | Hx] Hs]; [done | tauto].
    + destruct (IH ({[a]} ∪ seen)) as [Hnd Hin]. split.
      * constructor; [| done]. rewrite Hin, elem_of_union, elem_of_singleton. tauto.
      * intros x. rewrite !elem_of_cons, Hin, elem_of_union, elem_of_singleton.
        destruct (decide (x = a)) as [-> | Hne]; tauto.
Qed.

(** What [filter_urls] returns when every URL normalizes. *)
Lemma filter_urls_kept lib self urls normalized :
  normalized_to lib self None urls normalized ->
  let kept := unique_from ∅ (filter (fun u => should_skip self u = false) normalized) in
  filter_urls lib self urls = Returned kept /\
  NoDup kept /\
  forall u, u ∈ kept <->
    should_skip self u = false /\
    exists u0, u0 ∈ urls /\ normalize_url lib self u0 None = Returned u.
Proof.
  intros Hall kept.
  destruct (unique_from_spec (filter (fun u => should_skip self u = false) normalized) ∅)
    as [Hnd Hin].
  split_and!; [| done |].
  - unfold filter_urls. by rewrite (filter_loop_returned _ _ _ _ Hall).
  - intros u. unfold kept. rewrite Hin, list_elem_of_filter. split.
    + intros [[Hs Hu] _]. split; [done |]. by eapply normalized_to_elem_inv.
    + intros [Hs (u0 & Hu0 & Hn)]. split_and!; [done | | apply not_elem_of_empty].
      destruct (normalized_to_elem _ _ _ _ _ _ Hall Hu0) as (n & Hn' & Heq). congruence.
Qed.

(** [filter_urls] raises what the first failing normalization raises, and
    returns only when every URL normalizes. *)
Lemma filter_urls_raised lib self before normalized url after e :
  normalized_to lib self None before normalized ->
  normalize_url lib self url None = Raised e ->
  filter_urls lib self (before ++ url :: after) = Raised e.
Proof. intros Hb He. unfold filter_urls. by eapply filter_loop_raised. Qed.

Lemma filter_urls_returned_inv lib self urls kept :
  filter_urls lib self urls = Returned kept ->
  exists normalized, normalized_to lib self None urls normalized.
Proof.
  intros Hret.
  destruct (normalized_or_raised lib self None urls)
    as [Hall | (before & url & after & e & -> & [ns Hb] & He)]; [done |].
  by rewrite (filter_urls_raised _ _ _ _ _ _ _ Hb He) in Hret.
Qed.

Lemma normalized_to_fun lib self base urls n1 n2 :
  normalized_to lib self base urls n1 -> normalized_to lib self base urls n2 -> n1 = n2.
Proof.
  intros H1. revert n2. induction H1 as [|u n urls n1 Hu Hrest IH]; intros n2 H2.
  - by inversion H2.
  - inversion H2 as [|? n' ? n2' Hu' Hrest']; subst. f_equal; [congruence | by apply IH].
Qed.

(** C6, as the code has it.  The traversal takes the start URL as given:
    whenever [max_depth] is not negative it ends with the start URL among
    the discovered URLs, whatever [should_skip] says of it.  The policy
    reaches it afterwards: every URL that [filter_urls] keeps is the
    normalized form of one of its inputs and passes [should_skip]. *)
Theorem seed_is_not_filtered lib web self start_url max_depth link_selector :
  0 <= max_depth ->
  (exists fuel urls,
     crawl_recursively lib web self start_url max_depth link_selector fuel = Some urls /\
     start_url ∈ urls) /\
  (forall urls kept u,
     filter_urls lib self urls = Returned kept -> u ∈ kept ->
     should_skip self u = false /\
     exists u0, u0 ∈ urls /\ normalize_url lib self u0 None = Returned u).
Proof.
  intros Hdepth. split.
  - destruct (crawl_from_discovers
                (fun url => extract_links_from_page lib web self url link_selector)
                start_url max_depth) as (fuel & discovered & Hrun & Hiff).
    exists fuel, (elements discovered). unfold crawl_recursively.
    rewrite (Hrun fuel) by lia. split; [done |].
    apply elem_of_elements, Hiff. exists O. split; [constructor | lia].
  - intros urls kept u Hret Hu.
    destruct (filter_urls_returned_inv _ _ _ _ Hret) as [normalized Hall].
    destruct (filter_urls_kept lib self urls normalized Hall) as (Heq & _ & Hin).
    rewrite Heq in Hret. injection Hret as <-. by apply Hin.
Qed.

(** C6, as stated: a seed that the filter excludes would not be
    discovered.  A seed on another domain is excluded by [should_skip], yet
    the traversal returns it. *)
Lemma excluded_seed_is_discovered :
  normalize_url python_urllib x_dev "https://other.org/start" None =
    Returned "https://other.org/start" /\
  should_skip x_dev "https://other.org/start" = true /\
  crawl_recursively python_urllib site x_dev "https://other.org/start" 3 None 5 =
    Some ["https://other.org/start"].
Proof. repeat split; vm_compute; reflexivity. Qed.

Lemma seed_is_not_filtered_site :
  0 <= 3 /\
  (exists fuel urls,
     crawl_recursively python_urllib site x_dev "https://other.org/start" 3 None fuel =
       Some urls /\
     "https://other.org/start" ∈ urls) /\
  (forall urls kept u,
     filter_urls python_urllib x_dev urls = Returned kept -> u ∈ kept ->
     should_skip x_dev u = false /\
     exists u0, u0 ∈ urls /\ normalize_url python_urllib x_dev u0 None = Returned u).
Proof.
  assert (0 <= 3) as H by lia.
  split; [exact H |].
  exact (seed_is_not_filtered python_urllib site x_dev "https://other.org/start" 3 None H).
Defined.

Example filter_urls_drops_seed :
  filter_urls python_urllib x_dev
    ["https://other.org/start"; "https://x.dev/a/"; "https://x.dev/a"; "/b"] =
    Returned ["https://x.dev/a"; "https://x.dev/b"].
Proof. vm_compute. reflexivity. Qed.

End seed_policy.

(** * Further properties of the scraper *)

(** ** Link extraction and [filter_urls] *)

Section link_pipeline.
Import PyStr.

Lemma unique_from_id links : forall seen,
  NoDup links -> (forall x, x ∈ links -> x ∉ seen) -> unique_from seen links = links.
Proof.
  induction links as [|a links IH]; intros seen Hnd Hfresh; simpl; [done |].
  inversion Hnd as [|? ? Ha Hnd']; subst.
  rewrite bool_decide_eq_false_2 by (apply Hfresh; by left).
  f_equal. apply IH; [done |].
  intros x Hx. rewrite elem_of_union, elem_of_singleton.
  intros [-> | Hs]; [done |]. eapply Hfresh; [by right | done].
Qed.

Lemma should_skip_false_inv self link :
  should_skip self link = false ->
  (link ∉ visited_urls self) /\ prefix_of (base_url self) link.
Proof.
  unfold should_skip. case_bool_decide as Hv; [done |].
  destruct (startswith link (base_url self)) eqn:Hp; [| done].
  intros _. split; [done | by apply startswith_spec].
Qed.

(** The links collected by the loop pass [should_skip]. *)
Lemma links_loop_allowed lib self url hrefs : forall links collected,
  links_loop lib self url hrefs links = Returned collected ->
  forall link, link ∈ collected -> link ∈ links \/ should_skip self link = false.
Proof.
  induction hrefs as [|href hrefs IH]; intros links collected Hloop link Hin.
  - injection Hloop as <-. by left.
  - cbn [links_loop] in Hloop.
    destruct (normalize_url lib self href (Some url)) as [n | e]; [| done].
    cbn [mbind outcome_bind] in Hloop.
    destruct (should_skip self n) eqn:Hskip.
    + by eapply IH.
    + destruct (IH _ _ Hloop link Hin) as [Hl | Hl]; [| by right].
      apply elem_of_app in Hl as [Hl | ->%list_elem_of_singleton]; [by left | by right].
Qed.

(** What [extract_links_from_page] returns has no duplicates and passes
    [should_skip]. *)
Lemma extract_links_allowed lib web self url selector :
  NoDup (extract_links_from_page lib web self url selector) /\
  forall link, link ∈ extract_links_from_page lib web self url selector ->
    should_skip self link = false.
Proof.
  unfold extract_links_from_page, extract_links_body.
  destruct (fetch_url web url) as [html | e]; simpl;
    [| by split; [constructor | intros ? ?%elem_of_nil]].
  destruct (BeautifulSoup web html) as [soup | e]; simpl;
    [| by split; [constructor | intros ? ?%elem_of_nil]].
  destruct (container_of web soup selector) as [[container |] | e]; simpl;
    [| by split; [constructor | intros ? ?%elem_of_nil]
     | by split; [constructor | intros ? ?%elem_of_nil]].
  destruct (find_all_href web container) as [hrefs | e]; simpl;
    [| by split; [constructor | intros ? ?%elem_of_nil]].
  destruct (links_loop lib self url hrefs []) as [links | e] eqn:Hloop; simpl;
    [| by split; [constructor | intros ? ?%elem_of_nil]].
  destruct (unique_from_spec links ∅) as [Hnd Hin].
  split; [done |]. intros link Hl. apply Hin in Hl as [Hl _].
  destruct (links_loop_allowed _ _ _ _ _ _ Hloop link Hl) as [?%elem_of_nil | Hs]; done.
Qed.

(** [extract_links_from_page] never returns a link twice, and never a link
    that [should_skip] rejects: every link starts with the base URL and is
    not in the visited set. *)
Theorem extract_links_unique_allowed lib web self url selector :
  NoDup (extract_links_from_page lib web self url selector) /\
  forall link, link ∈ extract_links_from_page lib web self url selector ->
    should_skip self link = false /\
    prefix_of (base_url self) link /\
    link ∉ visited_urls self.
Proof.
  destruct (extract_links_allowed lib web self url selector) as [Hnd Hallowed].
  split; [done |]. intros link Hl. specialize (Hallowed link Hl).
  split; [done |].
  pose proof (should_skip_false_inv self link Hallowed) as [Hv Hp]. by split.
Qed.

End link_pipeline.

Section url_discovery.
Import PyStr.

(** When the page loads, the container is found and every [href]
    normalizes, the links are the normalized [href] values that
    [should_skip] accepts, each once, in the order of their first
    occurrence; normalization is relative to the page URL.  When
    [normalize_url] raises on one of the [href] values, the page gives no
    link at all. *)
Theorem extract_links_exact lib web self url selector html soup container hrefs :
  fetch_url web url = Returned html ->
  BeautifulSoup web html = Returned soup ->
  container_of web soup selector = Returned (Some container) ->
  find_all_href web container = Returned hrefs ->
  (forall normalized,
     normalized_to lib self (Some url) hrefs normalized ->
     extract_links_from_page lib web self url selector =
       unique_from ∅ (filter (fun link => should_skip self link = false) normalized) /\
     forall link, link ∈ extract_links_from_page lib web self url selector <->
       should_skip self link = false /\
       exists href, href ∈ hrefs /\ normalize_url lib self href (Some url) = Returned link) /\
  (forall href e,
     href ∈ hrefs -> normalize_url lib self href (Some url) = Raised e ->
     extract_links_from_page lib web self url selector = []).
Proof.
  intros Hf Hb Hc Hh. split.
  - intros normalized Hall.
    assert (extract_links_from_page lib web self url selector =
      unique_from ∅ (filter (fun link => should_skip self link = false) normalized)) as Heq.
    { unfold extract_links_from_page, extract_links_body.
      rewrite Hf. simpl. rewrite Hb. simpl. rewrite Hc. simpl. rewrite Hh. simpl.
      by rewrite (links_loop_returned _ _ _ _ _ Hall). }
    split; [done |]. intros link. rewrite Heq.
    rewrite (proj2 (unique_from_spec _ ∅)), list_elem_of_filter. split.
    + intros [[Hs Hin] _]. split; [done |]. by eapply normalized_to_elem_inv.
    + intros [Hs (href & Hin & Hn)]. split_and!; [done | | apply not_elem_of_empty].
      destruct (normalized_to_elem _ _ _ _ _ _ Hall Hin) as (n & Hn' & Heq'). congruence.
  - intros href e Hin He. apply extraction_fails_no_links.
    by eapply normalize_fails.
Qed.

Lemma extract_links_exact_site :
  let hrefs := ["/d"; "a"; "/logo.png"] in
  let url := "https://x.dev/b" in
  (forall normalized,
     normalized_to python_urllib x_dev (Some url) hrefs normalized ->
     extract_links_from_page python_urllib site x_dev url (Some "main") =
       unique_from ∅ (filter (fun link => should_skip x_dev link = false) normalized) /\
     forall link,
       link ∈ extract_links_from_page python_urllib site x_dev url (Some "main") <->
       should_skip x_dev link = false /\
       exists href, href ∈ hrefs /\
         normalize_url python_urllib x_dev href (Some url) = Returned link) /\
  (forall href e,
     href ∈ hrefs -> normalize_url python_urllib x_dev href (Some url) = Raised e ->
     extract_links_from_page python_urllib site x_dev url (Some "main") = []).
Proof.
  intros hrefs url.
  apply (extract_links_exact python_urllib site x_dev url (Some "main")
           (join LF hrefs) hrefs hrefs hrefs); reflexivity.
Defined.

Example extract_links_site_normalized :
  normalized_to python_urllib x_dev (Some "https://x.dev/b") ["/d"; "a"; "/logo.png"]
    ["https://x.dev/d"; "https://x.dev/a"; "https://x.dev/logo.png"].
Proof. repeat constructor. Qed.

(** [filter_urls] returns exactly when every input normalizes; it then
    returns, without duplicates, exactly the normalized forms of its inputs
    that [should_skip] accepts, in the order of their first occurrence.
    Otherwise it raises what [normalize_url] raises on the first input
    that does not normalize. *)
Theorem filter_urls_spec lib self urls :
  (forall normalized,
     normalized_to lib self None urls normalized ->
     let kept := unique_from ∅ (filter (fun u => should_skip self u = false) normalized) in
     filter_urls lib self urls = Returned kept /\
     NoDup kept /\
     forall u, u ∈ kept <->
       should_skip self u = false /\
       exists u0, u0 ∈ urls /\ normalize_url lib self u0 None = Returned u) /\
  (forall before normalized url after e,
     urls = before ++ url :: after ->
     normalized_to lib self None before normalized ->
     normalize_url lib self url None = Raised e ->
     filter_urls lib self urls = Raised e) /\
  ((exists kept, filter_urls lib self urls = Returned kept) <->
   (exists normalized, normalized_to lib self None urls normalized)).
Proof.
  split_and!.
  - intros normalized Hall. by apply filter_urls_kept.
  - intros before normalized url after e -> Hb He. by eapply filter_urls_raised.
  - split.
    + intros [kept Hret]. by eapply filter_urls_returned_inv.
    + intros [normalized Hall]. eexists. by apply (filter_urls_kept lib self urls normalized).
Qed.

Lemma filter_all {A} (P : A -> Prop) `{forall x, Decision (P x)} (l : list A) :
  Forall P l -> filter P l = l.
Proof.
  induction 1 as [|x l Hx Hl IH]; [done |].
  rewrite filter_cons, decide_True by done. by rewrite IH.
Qed.

Lemma normalize_url_absolute_fixed lib self rest base base' :
  exists result,
    normalize_url lib self ("http" +:+ rest) base = Returned result /\
    normalize_url lib self result base' = Returned result.
Proof.
  exists (rstrip_char "/" (split_first "#" ("http" +:+ rest))).
  split; [apply normalize_url_http |].
  destruct (strip_keeps_http rest) as [rest' Hr]. rewrite Hr.
  rewrite normalize_url_http, <- Hr. f_equal.
  rewrite split_first_id by apply rstrip_by_no_char, split_first_no_sep.
  apply rstrip_by_idem.
Qed.

(** URLs that start with [http] all normalize. *)
Lemma normalized_to_http lib self base urls :
  Forall (fun u => startswith u "http" = true) urls ->
  exists normalized, normalized_to lib self base urls normalized.
Proof.
  induction 1 as [|u urls Hu Hrest [normalized IH]]; [exists []; constructor |].
  apply startswith_spec in Hu as [rest ->].
  eexists (_ :: normalized). constructor; [apply normalize_url_http | done].
Qed.

(** A list of URLs that are their own normalized forms. *)
Lemma normalized_to_self lib self base urls :
  Forall (fun u => normalize_url lib self u base = Returned u) urls ->
  normalized_to lib self base urls urls.
Proof. induction 1; by constructor. Qed.

(** On URLs that all start with [http], [filter_urls] returns, and
    filtering what it returns changes nothing. *)
Theorem filter_urls_idempotent lib self urls :
  Forall (fun u => startswith u "http" = true) urls ->
  exists kept,
    filter_urls lib self urls = Returned kept /\
    filter_urls lib self kept = Returned kept.
Proof.
  intros Habs.
  destruct (normalized_to_http lib self None urls Habs) as [normalized Hall].
  destruct (filter_urls_kept lib self urls normalized Hall) as (Heq & Hnd & Hin).
  eexists. split; [exact Heq |].
  set (kept := unique_from ∅ (filter (fun u => should_skip self u = false) normalized)) in *.
  assert (forall u, u ∈ kept ->
            should_skip self u = false /\ normalize_url lib self u None = Returned u) as Hfix.
  { intros u [Hs (u0 & Hu0 & Hn)]%Hin. split; [done |].
    rewrite Forall_forall in Habs. specialize (Habs u0 Hu0).
    apply startswith_spec in Habs as [rest ->].
    destruct (normalize_url_absolute_fixed lib self rest None None) as (r & Hr1 & Hr2).
    congruence. }
  assert (normalized_to lib self None kept kept) as Hself.
  { apply normalized_to_self, Forall_forall. intros u Hu. by apply Hfix. }
  destruct (filter_urls_kept lib self kept kept Hself) as (Heq' & _ & _).
  rewrite Heq'. f_equal.
  rewrite filter_all by (apply Forall_forall; intros u Hu; by apply Hfix).
  apply unique_from_id; [done |]. intros x _. apply not_elem_of_empty.
Qed.

Lemma filter_urls_idempotent_site :
  let urls := ["https://x.dev/a/"; "https://x.dev/a#top"; "https://other.org/"; "https://x.dev/b"] in
  Forall (fun u => startswith u "http" = true) urls /\
  exists kept,
    filter_urls python_urllib x_dev urls = Returned kept /\
    filter_urls python_urllib x_dev kept = Returned kept.
Proof.
  intros urls.
  assert (Forall (fun u => startswith u "http" = true) urls) as H
    by (repeat constructor).
  split; [exact H |].
  exact (filter_urls_idempotent python_urllib x_dev urls H).
Defined.

(** [filter_urls] has no [try]: on a URL with a malformed host it raises,
    and the URLs before and after it are lost. *)
Example filter_urls_raises :
  filter_urls python_urllib x_dev ["https://x.dev/a"; "ftp://[bad/x"; "https://x.dev/b"] =
    Raised "ValueError".
Proof. vm_compute. reflexivity. Qed.

End url_discovery.

(** ** [discover_urls] *)

Section discover.
Import PyStr.

Variable lib : UrlLib.
Variable web : Web.
Variable self : BaseScraper.
Variable max_depth : Z.
Variable link_selector : string.

Local Abbreviation extract :=
  (fun url => extract_links_from_page lib web self url (Some link_selector)).

Lemma discover_loop_spec starts : forall all_urls,
  exists fuel collected,
    (forall fuel', (fuel <= fuel')%nat ->
       discover_loop lib web self max_depth link_selector fuel' all_urls starts =
         Some collected) /\
    forall u, u ∈ collected <->
      u ∈ all_urls \/ exists s, s ∈ starts /\ within_depth extract s max_depth u.
Proof.
  induction starts as [|s rest IH]; intros all_urls.
  - exists O, all_urls. split; [done |]. intros u. split; [by left |].
    intros [? | (s & ?%elem_of_nil & _)]; done.
  - destruct (crawl_from_discovers extract s max_depth) as (f1 & d & Hrun & Hd).
    destruct (IH (all_urls ∪ list_to_set (elements d))) as (f2 & collected & Hrun2 & Hc).
    exists (f1 `max` f2)%nat, collected. split.
    + intros fuel' Hle. cbn [discover_loop]. unfold crawl_recursively.
      rewrite Hrun by lia. simpl. apply Hrun2. lia.
    + intros u. rewrite Hc, elem_of_union, elem_of_list_to_set, elem_of_elements, Hd.
      split.
      * intros [[Hu | Hu] | (s' & Hs' & Hu)].
        -- by left.
        -- right. exists s. split; [by left | done].
        -- right. exists s'. split; [by right | done].
      * intros [Hu | (s' & [-> | Hs']%elem_of_cons & Hu)].
        -- left. by left.
        -- left. by right.
        -- right. by exists s'.
Qed.

(** A URL within reach of a start URL is the start URL or a link that
    [extract_links_from_page] returned. *)
Lemma within_depth_start_or_link s v :
  within_depth extract s max_depth v ->
  v = s \/ exists u, v ∈ extract u.
Proof.
  intros (n & Hpath & _). inversion Hpath as [| ? u ? _ Hv]; subst; [by left |].
  right. by exists u.
Qed.

Lemma startswith_trans s p q :
  startswith s p = true -> startswith p q = true -> startswith s q = true.
Proof.
  intros [r ->]%startswith_spec [r' ->]%startswith_spec.
  apply startswith_spec. exists (r' +:+ r). by rewrite sapp_assoc.
Qed.

(** Every [discover_urls] gets through its traversals, and then returns or
    raises what [filter_urls] does on the URLs within [max_depth] link
    steps of the start URLs.  When each of these URLs normalizes, it
    returns without duplicates exactly their normalized forms that
    [should_skip] accepts; when [normalize_url] raises on one of them,
    [discover_urls] raises.  With a base URL and start URLs that start
    with [http] it returns. *)
Theorem discover_urls_spec :
  exists fuel result,
    (forall fuel', (fuel <= fuel')%nat ->
       discover_urls_with max_depth link_selector lib web self fuel' = Some result) /\
    ((forall s v, s ∈ start_urls self -> within_depth extract s max_depth v ->
        exists n, normalize_url lib self v None = Returned n) ->
     exists urls,
       result = Returned urls /\
       NoDup urls /\
       forall u, u ∈ urls <->
         should_skip self u = false /\
         exists s v, s ∈ start_urls self /\
                     within_depth extract s max_depth v /\
                     normalize_url lib self v None = Returned u) /\
    (forall s v e, s ∈ start_urls self -> within_depth extract s max_depth v ->
       normalize_url lib self v None = Raised e ->
       exists e', result = Raised e') /\
    (startswith (base_url self) "http" = true ->
     Forall (fun s => startswith s "http" = true) (start_urls self) ->
     exists urls, result = Returned urls).
Proof.
  destruct (discover_loop_spec (start_urls self) ∅) as (fuel & collected & Hrun & Hc).
  exists fuel, (filter_urls lib self (elements collected)).
  assert (forall v, v ∈ elements collected <->
            exists s, s ∈ start_urls self /\ within_depth extract s max_depth v) as Hreach.
  { intros v. rewrite elem_of_elements, Hc. split; [| by right].
    intros [?%not_elem_of_empty | ?]; done. }
  assert ((forall s v, s ∈ start_urls self -> within_depth extract s max_depth v ->
             exists n, normalize_url lib self v None = Returned n) ->
          exists normalized, normalized_to lib self None (elements collected) normalized)
    as Hnormalized.
  { intros Hall.
    destruct (normalized_or_raised lib self None (elements collected))
      as [? | (before & url & after & e & Heq & _ & He)]; [done |].
    assert (url ∈ elements collected) as Hin.
    { rewrite Heq. apply elem_of_app. right. by left. }
    apply Hreach in Hin as (s & Hs & Hv). destruct (Hall s url Hs Hv) as [n Hn]. congruence. }
  split_and!.
  - intros fuel' Hle. unfold discover_urls_with. by rewrite Hrun.
  - intros Hall. destruct (Hnormalized Hall) as [normalized Hn].
    destruct (filter_urls_kept lib self (elements collected) normalized Hn)
      as (Heq & Hnd & Hin).
    eexists. split_and!; [exact Heq | done |].
    intros u. rewrite Hin. split.
    + intros [Hs (v & Hv & Hu)]. split; [done |].
      apply Hreach in Hv as (s & Hs' & Hv). by exists s, v.
    + intros [Hs (s & v & Hs' & Hv & Hu)]. split; [done |].
      exists v. split; [| done]. apply Hreach. by exists s.
  - intros s v e Hs Hv He.
    destruct (normalized_or_raised lib self None (elements collected))
      as [[normalized Hall] | (before & url & after & e' & Heq & [ns Hb] & He')].
    + assert (v ∈ elements collected) as Hin by (apply Hreach; by exists s).
      destruct (normalized_to_elem _ _ _ _ _ _ Hall Hin) as (n & _ & Hn). congruence.
    + exists e'. rewrite Heq. by eapply filter_urls_raised.
  - intros Hbase Hstarts.
    destruct Hnormalized as [normalized Hn].
    { intros s v Hs Hv.
      assert (startswith v "http" = true) as Hhttp.
      { destruct (within_depth_start_or_link s v Hv) as [-> | [u Hu]].
        - rewrite Forall_forall in Hstarts. by apply Hstarts.
        - apply (extract_links_allowed lib web self u (Some link_selector)) in Hu.
          apply should_skip_false_inv in Hu as [_ Hp%startswith_spec].
          by eapply startswith_trans. }
      apply startswith_spec in Hhttp as [rest ->]. eexists. apply normalize_url_http. }
    eexists. by apply (filter_urls_kept lib self (elements collected) normalized).
Qed.

End discover.

Example react_discover_urls_site :
  (fun r => match r with
            | Some (Returned urls) => Some (list_to_set urls : gset string)
            | _ => None
            end)
    (ReactScraper.discover_urls python_urllib site x_dev 20) =
    Some {["https://x.dev/a"; "https://x.dev/b"; "https://x.dev/c"; "https://x.dev/d"]}.
Proof. vm_compute. reflexivity. Qed.

(** A start URL with a malformed host: the traversal records it, and
    [filter_urls] raises on it. *)
Example react_discover_urls_raises :
  ReactScraper.discover_urls python_urllib site
    {| name := "x"; base_url := "https://x.dev"; start_urls := ["ftp://[bad/x"];
       skip_patterns := []; visited_urls := ∅ |} 5 =
    Some (Raised "ValueError").
Proof. vm_compute. reflexivity. Qed.

(** * Further properties of the chunker *)

(** ** [_get_headers_for_position] *)

Section active_headers.

Lemma header_key_inj i j : header_key i = header_key j -> i = j.
Proof.
  unfold header_key. intros H. apply (inj pretty).
  by apply (String.app_inj "h").
Qed.

Lemma foldl_delete_lookup (keys : list Z) : forall (m : gmap string string) k,
  foldl (fun active i => delete (header_key i) active) m keys !! header_key k =
    if decide (k ∈ keys) then None else m !! header_key k.
Proof.
  induction keys as [|i keys IH]; intros m k; cbn [foldl].
  - rewrite decide_False; [done | apply not_elem_of_nil].
  - rewrite IH. destruct (decide (k ∈ keys)) as [Hin | Hnin].
    + rewrite decide_True; [done | by right].
    + destruct (decide (k = i)) as [-> | Hne].
      * rewrite decide_True by by left. apply lookup_delete_eq.
      * rewrite decide_False.
        -- apply lookup_delete_ne. intros Heq. by apply header_key_inj in Heq.
        -- rewrite elem_of_cons. tauto.
Qed.

(** Popping after a header of level [level] removes [h(level+1)] to [h6]
    and nothing else. *)
Lemma pop_deeper_lookup level (m : gmap string string) k :
  pop_deeper level m !! header_key k =
    if decide (level < k < 7) then None else m !! header_key k.
Proof.
  unfold pop_deeper. rewrite foldl_delete_lookup.
  destruct (decide (level < k < 7)) as [Hr | Hr].
  - rewrite decide_True; [done |]. apply elem_of_seqZ. lia.
  - rewrite decide_False; [done |]. rewrite elem_of_seqZ. lia.
Qed.

Lemma get_headers_snoc position headers header :
  _get_headers_for_position position (headers ++ [header]) =
    if Header.position header <=? position then
      pop_deeper (Header.level header)
        (<[header_key (Header.level header) := Header.text header]>
           (_get_headers_for_position position headers))
    else _get_headers_for_position position headers.
Proof. unfold _get_headers_for_position. by rewrite foldl_app. Qed.

(** The active header of a level [k] up to 6 is the last header, among
    those at or before the position with level at most [k], if that one
    has level [k] itself: a later header of a higher rank clears it. *)
Theorem get_headers_for_position_lookup position headers k :
  k <= 6 ->
  _get_headers_for_position position headers !! header_key k =
    match last (filter (fun h => Header.position h <= position /\ Header.level h <= k)
                       headers) with
    | Some h => if decide (Header.level h = k) then Some (Header.text h) else None
    | None => None
    end.
Proof.
  intros Hk. induction headers as [|header headers IH] using rev_ind; [done |].
  rewrite get_headers_snoc, filter_app, filter_cons, filter_nil.
  destruct (Z.leb_spec (Header.position header) position) as [Hp | Hp].
  - rewrite pop_deeper_lookup.
    destruct (decide (Header.position header <= position /\ Header.level header <= k))
      as [[_ Hle] | Hn].
    + rewrite last_snoc.
      destruct (decide (Header.level header = k)) as [Heq | Hne].
      * rewrite decide_False by lia. rewrite Heq. apply lookup_insert_eq.
      * by rewrite decide_True by lia.
    + rewrite (right_id_L [] (++)). rewrite decide_False by lia.
      rewrite lookup_insert_ne; [done |].
      intros Heq. apply header_key_inj in Heq. lia.
  - destruct (decide (Header.position header <= position /\ Header.level header <= k))
      as [[Hle _] | _]; [lia |].
    by rewrite (right_id_L [] (++)).
Qed.

Lemma get_headers_for_position_lookup_sample :
  let headers :=
    [ {| Header.level := 1; Header.text := "Guide"; Header.position := 0 |};
      {| Header.level := 2; Header.text := "Install"; Header.position := 10 |};
      {| Header.level := 3; Header.text := "Linux"; Header.position := 30 |};
      {| Header.level := 2; Header.text := "Usage"; Header.position := 50 |};
      {| Header.level := 1; Header.text := "API"; Header.position := 90 |} ] in
  3 <= 6 /\
  _get_headers_for_position 60 headers !! header_key 3 =
    match last (filter (fun h => Header.position h <= 60 /\ Header.level h <= 3)
                       headers) with
    | Some h => if decide (Header.level h = 3) then Some (Header.text h) else None
    | None => None
    end.
Proof.
  intros headers. assert (3 <= 6) as H by lia.
  split; [exact H |].
  exact (get_headers_for_position_lookup 60 headers 3 H).
Defined.

Example get_headers_for_position_sample :
  let headers :=
    [ {| Header.level := 1; Header.text := "Guide"; Header.position := 0 |};
      {| Header.level := 2; Header.text := "Install"; Header.position := 10 |};
      {| Header.level := 3; Header.text := "Linux"; Header.position := 30 |};
      {| Header.level := 2; Header.text := "Usage"; Header.position := 50 |};
      {| Header.level := 1; Header.text := "API"; Header.position := 90 |} ] in
  _get_headers_for_position 40 headers =
    {[ "h1" := "Guide"; "h2" := "Install"; "h3" := "Linux" ]} /\
  _get_headers_for_position 60 headers = {[ "h1" := "Guide"; "h2" := "Usage" ]} /\
  _get_headers_for_position (-1) headers = ∅.
Proof. repeat split; vm_compute; reflexivity. Qed.

(** No header at or before the position, no active header: in particular
    for the position [-1] of a text that was not found. *)
Lemma get_headers_none_before position headers :
  Forall (fun h => position < Header.position h) headers ->
  _get_headers_for_position position headers = ∅.
Proof.
  induction headers as [|header headers IH] using rev_ind; [done |].
  intros [Hhs Hh]%Forall_app. rewrite get_headers_snoc.
  inversion Hh; subst.
  destruct (Z.leb_spec (Header.position header) position); [lia | by apply IH].
Qed.

End active_headers.

(** ** [_extract_headers_with_positions] *)

Section header_extraction.
Import PyStr.

Lemma span_fst_all p s : all_chars p (span p s).1 = true.
Proof.
  induction s as [|c s IH]; [done |]. cbn [span].
  destruct (p c) eqn:Hc; [| done].
  destruct (span p s) as [a b]. cbn [fst] in *. cbn [all_chars]. by rewrite Hc, IH.
Qed.

Lemma span_fst_nonempty p s a b :
  span p s = (a, b) -> a <> "" -> exists c s', s = String c s' /\ p c = true.
Proof.
  destruct s as [|c s]; cbn [span]; [by intros [= <- <-] |].
  destruct (p c) eqn:Hc; [by exists c, s |]. by intros [= <- <-].
Qed.

Lemma all_not_LF_no_LF s :
  all_chars not_LF s = true -> contains (String LF "") s = false.
Proof.
  induction s as [|c s IH]; [done |]. cbn [all_chars].
  intros [Hc Hs]%andb_true_iff. rewrite contains_char_cons, IH by done.
  unfold not_LF in Hc. rewrite orb_false_r. rewrite Ascii.eqb_sym.
  by apply negb_true_iff.
Qed.

Lemma lstrip_by_no_char p sep s :
  contains (String sep "") s = false ->
  contains (String sep "") (lstrip_by p s) = false.
Proof.
  induction s as [|c s IH]; [done |]. intros H. cbn [lstrip_by].
  destruct (p c); [| done]. apply IH.
  rewrite contains_char_cons in H. by apply orb_false_iff in H as [_ ?].
Qed.

Lemma lstrip_by_head p s :
  lstrip_by p s = "" \/ exists c t, lstrip_by p s = String c t /\ p c = false.
Proof.
  induction s as [|c s IH]; [by left |]. cbn [lstrip_by].
  destruct (p c) eqn:Hc; [done |]. right. by exists c, s.
Qed.

(** [strip] is idempotent. *)
Lemma strip_idem s : strip (strip s) = strip s.
Proof.
  unfold strip. destruct (lstrip_by_head isspace s) as [-> | (c & t & -> & Hc)]; [done |].
  rewrite rstrip_by_keep by done. cbn [lstrip_by]. rewrite Hc.
  rewrite <- (rstrip_by_keep isspace c t Hc). apply rstrip_by_idem.
Qed.

Lemma strip_no_LF s :
  contains (String LF "") s = false -> contains (String LF "") (strip s) = false.
Proof. intros H. unfold strip. by apply rstrip_by_no_char, lstrip_by_no_char. Qed.

(** A match starts with [#], has a level from 1 to 6, and a second group
    within one line. *)
Lemma match_header_inv s level group2 len :
  match_header s = Some (level, group2, len) ->
  1 <= level <= 6 /\
  contains (String LF "") group2 = false /\
  exists s', s = String "#" s'.
Proof.
  unfold match_header. destruct (span is_hash s) as [hashes r] eqn:Hspan.
  destruct ((1 <=? String.length hashes)%nat && (String.length hashes <=? 6)%nat) eqn:Hk;
    [| done].
  apply andb_true_iff in Hk as [Hk1%Nat.leb_le Hk6%Nat.leb_le].
  assert (exists s', s = String "#" s') as Hhash.
  { destruct (span_fst_nonempty is_hash s hashes r Hspan) as (c & s' & -> & Hc).
    - intros ->. simpl in Hk1. lia.
    - apply Ascii.eqb_eq in Hc as ->. by exists s'. }
  destruct (span isspace r) as [w t]. destruct w as [|c0 w']; [done |].
  destruct t as [|c t'].
  - destruct (last_index not_LF w') as [j |]; [| done].
    intros [= <- <- _]. split_and!; [lia | lia | | done].
    apply all_not_LF_no_LF, (span_fst_all not_LF (drop_chars (S j) (String c0 w'))).
  - intros [= <- <- _]. split_and!; [lia | lia | | done].
    apply all_not_LF_no_LF, (span_fst_all not_LF (String c t')).
Qed.

Lemma length_snoc (s : string) c :
  String.length (s +:+ String c "") = S (String.length s).
Proof. induction s as [|x s IH]; [done |]. rewrite sapp_cons. simpl. by rewrite IH. Qed.

Lemma snoc_app (a : string) c s : (a +:+ String c "") +:+ s = a +:+ String c s.
Proof. by rewrite sapp_assoc. Qed.

Lemma headers_from_inv s : forall before pos at_line_start skip,
  Z.of_nat (String.length before) = pos ->
  (at_line_start = true -> before = "" \/ suffix_of (String LF "") before) ->
  Forall (header_ok (before +:+ s)) (headers_from s pos at_line_start skip) /\
  Forall (fun h => pos <= Header.position h) (headers_from s pos at_line_start skip) /\
  StronglySorted (fun h1 h2 => Header.position h1 < Header.position h2)
    (headers_from s pos at_line_start skip).
Proof.
  induction s as [|c s IH]; intros before pos bol skip Hpos Hbol.
  { split_and!; constructor. }
  assert (forall bol' skip',
    (bol' = true -> suffix_of (String LF "") (before +:+ String c "")) ->
    Forall (header_ok (before +:+ String c s)) (headers_from s (pos + 1) bol' skip') /\
    Forall (fun h => pos + 1 <= Header.position h) (headers_from s (pos + 1) bol' skip') /\
    StronglySorted (fun h1 h2 => Header.position h1 < Header.position h2)
      (headers_from s (pos + 1) bol' skip')) as Hrec.
  { intros bol' skip' Hb. rewrite <- snoc_app. apply IH.
    - rewrite length_snoc. lia.
    - intros Ht. right. by apply Hb. }
  assert (forall bol' skip',
    (bol' = true -> suffix_of (String LF "") (before +:+ String c "")) ->
    Forall (header_ok (before +:+ String c s)) (headers_from s (pos + 1) bol' skip') /\
    Forall (fun h => pos <= Header.position h) (headers_from s (pos + 1) bol' skip') /\
    StronglySorted (fun h1 h2 => Header.position h1 < Header.position h2)
      (headers_from s (pos + 1) bol' skip')) as Hrec'.
  { intros bol' skip' Hb. destruct (Hrec bol' skip' Hb) as (H1 & H2 & H3).
    split_and!; [done | | done]. eapply Forall_impl; [exact H2 |]. simpl. intros; lia. }
  cbn [headers_from]. destruct skip as [|skip']; [| by apply Hrec'].
  destruct (if bol then match_header (String c s) else None) as [[[level group2] len] |] eqn:Hm.
  - destruct bol; [| done].
    destruct (match_header_inv _ _ _ _ Hm) as (Hlevel & Hg & s' & [= -> ->]).
    destruct (Hrec false (len - 1)%nat) as (H1 & H2 & H3); [done |].
    split_and!.
    + constructor; [| done]. split_and!; cbn [Header.level Header.text Header.position].
      * lia.
      * lia.
      * by apply strip_no_LF.
      * apply strip_idem.
      * exists before, s'. split_and!; [done | done | by apply Hbol].
    + constructor; [cbn; lia |]. eapply Forall_impl; [exact H2 |]. simpl. intros; lia.
    + constructor; [done |]. eapply Forall_impl; [exact H2 |]. simpl. intros; lia.
  - apply Hrec'. intros Hc%Ascii.eqb_eq. subst c. by exists before.
Qed.

(** The headers found in a text come in the order of their positions;
    each has a level from 1 to 6, a one-line text without surrounding
    whitespace, and a position that is the index of a [#] at the start of a
    line of the text. *)
Theorem extract_headers_invariant markdown :
  Forall (header_ok markdown) (_extract_headers_with_positions markdown) /\
  StronglySorted (fun h1 h2 => Header.position h1 < Header.position h2)
    (_extract_headers_with_positions markdown).
Proof.
  destruct (headers_from_inv markdown "" 0 true O) as (H1 & _ & H3); [done | by left |].
  by split.
Qed.

Example extract_headers_sample :
  _extract_headers_with_positions
    (join LF ["# Guide"; ""; "Intro."; "## Install  "; "####### seven"; "#nospace"; "  # indented"]) =
    [ {| Header.level := 1; Header.text := "Guide"; Header.position := 0 |};
      {| Header.level := 2; Header.text := "Install"; Header.position := 16 |} ].
Proof. reflexivity. Qed.

(** A no-break space after the hash signs is the whitespace that [\s+]
    asks for, and it is stripped from the title. *)
Example extract_headers_no_break_space :
  _extract_headers_with_positions
    ("#" +:+ String NBSP ("Title" +:+ String NBSP (String LF "##" +:+ String NEL "Sub"))) =
    [ {| Header.level := 1; Header.text := "Title"; Header.position := 0 |};
      {| Header.level := 2; Header.text := "Sub"; Header.position := 9 |} ].
Proof. vm_compute. reflexivity. Qed.

End header_extraction.

Section lone_hashes.
Import PyStr.

Lemma span_hashes k c s :
  is_hash c = false ->
  span is_hash (hashes k +:+ String c s) = (hashes k, String c s).
Proof.
  intros Hc. induction k as [|k IH]; cbn [hashes].
  - rewrite sapp_nil_l. cbn [span]. by rewrite Hc.
  - rewrite sapp_cons. cbn [span]. change (is_hash "#") with true. cbv iota.
    by rewrite IH.
Qed.

Lemma length_hashes k : String.length (hashes k) = k.
Proof. induction k as [|k IH]; [done |]. simpl. by rewrite IH. Qed.

(** A line without line feed, followed by the end of the text or by a
    line feed, is what [.+] takes. *)
Lemma span_line line rest :
  contains (String LF "") line = false ->
  rest = "" \/ prefix_of (String LF "") rest ->
  (span not_LF (line +:+ rest)).1 = line.
Proof.
  intros Hline Hrest. induction line as [|c line IH].
  - rewrite sapp_nil_l. destruct Hrest as [-> | [r ->]]; [done |].
    rewrite sapp_cons. cbn [span]. by change (not_LF LF) with false.
  - rewrite contains_char_cons in Hline. apply orb_false_iff in Hline as [Hc Hl].
    rewrite sapp_cons. cbn [span].
    assert (not_LF c = true) as ->.
    { unfold not_LF. apply negb_true_iff. by rewrite Ascii.eqb_sym. }
    specialize (IH Hl). destruct (span not_LF (line +:+ rest)) as [a b].
    cbn [fst] in *. by rewrite IH.
Qed.

(** Headers found after a match come after the match. *)
Lemma headers_from_after s : forall pos at_line_start skip,
  Forall (fun h => pos + Z.of_nat skip <= Header.position h)
         (headers_from s pos at_line_start skip).
Proof.
  induction s as [|c s IH]; intros pos bol skip; [constructor |].
  cbn [headers_from]. destruct skip as [|skip'].
  - destruct (if bol then match_header (String c s) else None) as [[[level group2] len] |].
    + constructor; [cbn; lia |].
      eapply Forall_impl; [apply IH |]. simpl. intros; lia.
    + eapply Forall_impl; [apply IH |]. simpl. intros; lia.
  - eapply Forall_impl; [apply IH |]. simpl. intros; lia.
Qed.

(** A document whose first line is 1 to 6 hash signs with nothing after
    them, and whose second line starts with a character that is no
    whitespace: the first line takes the second as its title, because
    [\s+] runs over the line feed.  The header found at position 0 has the
    second line as text, and every further header starts after the second
    line, which so gives no header of its own, also when it is a heading. *)
Theorem lone_hashes_take_next_line k c title rest :
  (1 <= k <= 6)%nat ->
  isspace c = false ->
  contains (String LF "") (String c title) = false ->
  rest = "" \/ prefix_of (String LF "") rest ->
  exists more,
    _extract_headers_with_positions (hashes k +:+ String LF (String c title +:+ rest)) =
      {| Header.level := Z.of_nat k; Header.text := strip (String c title);
         Header.position := 0 |} :: more /\
    Forall (fun h => Z.of_nat (k + 1 + String.length (String c title)) <= Header.position h)
           more.
Proof.
  intros Hk Hc Hline Hrest.
  assert (match_header (hashes k +:+ String LF (String c title +:+ rest)) =
          Some (Z.of_nat k, String c title, (k + 1 + String.length (String c title))%nat))
    as Hm.
  { unfold match_header. rewrite span_hashes by done. rewrite length_hashes.
    assert (((1 <=? k)%nat && (k <=? 6)%nat) = true) as ->.
    { apply andb_true_iff. split; apply Nat.leb_le; lia. }
    rewrite sapp_cons. cbn [span]. change (isspace LF) with true. cbv iota.
    rewrite Hc. cbv iota beta. rewrite <- sapp_cons.
    by rewrite (span_line (String c title) rest Hline Hrest). }
  unfold _extract_headers_with_positions.
  destruct (hashes k +:+ String LF (String c title +:+ rest)) as [|c0 s0] eqn:Hs.
  { destruct k; [lia | discriminate]. }
  cbn [headers_from]. rewrite Hm. eexists. split; [reflexivity |].
  eapply Forall_impl; [apply headers_from_after |]. simpl. intros; lia.
Qed.

Lemma lone_hashes_take_next_line_sample :
  (1 <= 1 <= 6)%nat /\
  isspace "#" = false /\
  exists more,
    _extract_headers_with_positions (hashes 1 +:+ String LF ("## Install" +:+ String LF "text")) =
      {| Header.level := 1; Header.text := "## Install"; Header.position := 0 |} :: more /\
    Forall (fun h => Z.of_nat (1 + 1 + String.length "## Install") <= Header.position h)
           more.
Proof.
  assert (1 <= 1 <= 6)%nat as Hk by lia.
  assert (isspace "#" = false) as Hc by reflexivity.
  split; [exact Hk |]. split; [exact Hc |].
  apply (lone_hashes_take_next_line 1 "#" "# Install" (String LF "text") Hk Hc).
  - reflexivity.
  - right. by exists "text".
Defined.

End lone_hashes.

Lemma extract_headers_positions_nonneg markdown :
  Forall (fun h => 0 <= Header.position h) (_extract_headers_with_positions markdown).
Proof.
  eapply Forall_impl; [apply (headers_from_after markdown 0 true O) |].
  simpl. intros; lia.
Qed.

(** ** [chunk_document_with_context] *)

Section contextual_nodes.
Import PyStr.

Lemma find_from_ge sub s : forall pos, find_from sub s pos = -1 \/ pos <= find_from sub s pos.
Proof.
  induction s as [|c s IH]; intros pos; cbn [find_from].
  - destruct (startswith "" sub); [right; lia | by left].
  - destruct (startswith (String c s) sub); [right; lia |].
    destruct (IH (pos + 1)) as [-> | H]; [by left | right; lia].
Qed.

(** [find] gives [-1] exactly when the text does not occur. *)
Lemma find_from_not_found sub s : forall pos,
  0 <= pos -> (find_from sub s pos = -1 <-> contains sub s = false).
Proof.
  induction s as [|c s IH]; intros pos Hpos; cbn [find_from contains].
  - rewrite orb_false_r. destruct (startswith "" sub); split; (done || lia).
  - destruct (startswith (String c s) sub); cbn [orb].
    + split; [lia | done].
    + apply IH. lia.
Qed.

(** The nodes follow the chunks of [chunk_markdown]; each node carries the
    active headers at the first occurrence of its text in the document
    (none when the text does not occur in it), the first 100 characters of
    its neighbours' texts as [previous_chunk] and [next_chunk] ([None] at
    the ends), and the chunk's own metadata under every other key. *)
Theorem chunk_document_with_context_nodes self markdown meta i node :
  chunk_document_with_context self markdown meta !! i = Some node ->
  let nodes := chunk_document_with_context self markdown meta in
  let chunks := chunk_markdown self markdown meta true in
  length nodes = length chunks /\
  (exists chunk, chunks !! i = Some chunk /\
     TextNode.text node = content chunk /\
     forall key, key <> "headers" -> key <> "previous_chunk" -> key <> "next_chunk" ->
       TextNode.metadata node !! key = NVal <$> metadata chunk !! key) /\
  TextNode.metadata node !! "headers" =
    Some (NHeaders (_get_headers_for_position (find markdown (TextNode.text node))
                      (_extract_headers_with_positions markdown))) /\
  (contains (TextNode.text node) markdown = false ->
   TextNode.metadata node !! "headers" = Some (NHeaders ∅)) /\
  TextNode.metadata node !! "previous_chunk" =
    Some (match i with
          | O => NNone
          | S j => match nodes !! j with
                   | Some prev => NText (take_chars 100 (TextNode.text prev))
                   | None => NNone
                   end
          end) /\
  TextNode.metadata node !! "next_chunk" =
    Some (match nodes !! S i with
          | Some next => NText (take_chars 100 (TextNode.text next))
          | None => NNone
          end).
Proof.
  intros Hi nodes chunks. unfold nodes, chunk_document_with_context in *.
  fold chunks in Hi |- *. rewrite length_imap.
  apply list_lookup_imap_Some in Hi as (chunk & Hchunk & ->).
  cbn [TextNode.text TextNode.metadata].
  pose proof (lookup_lt_Some _ _ _ Hchunk) as Hlt.
  split_and!.
  - done.
  - exists chunk. split_and!; [done | done |].
    intros key H1 H2 H3. rewrite !lookup_insert_ne by done. by rewrite lookup_fmap.
  - rewrite !lookup_insert_ne by done. by rewrite lookup_insert_eq.
  - intros Hnot. rewrite !lookup_insert_ne by done. rewrite lookup_insert_eq.
    do 2 f_equal. apply get_headers_none_before.
    assert (find markdown (content chunk) = -1) as ->
      by (by apply find_from_not_found).
    pose proof (extract_headers_positions_nonneg markdown) as Hpos.
    eapply Forall_impl; [exact Hpos |]. simpl. intros; lia.
  - rewrite lookup_insert_ne by done. rewrite lookup_insert_eq. f_equal.
    destruct i as [|j]; [done |].
    assert (j < length chunks)%nat as Hj by lia.
    apply lookup_lt_is_Some in Hj as [prev Hprev].
    rewrite list_lookup_imap, Hprev. cbn [fmap option_fmap option_map TextNode.text].
    replace (S j - 1)%nat with j by lia.
    assert ((0 <? S j)%nat = true) as -> by reflexivity.
    by rewrite (list_lookup_total_correct _ _ _ Hprev).
  - rewrite lookup_insert_eq. f_equal. rewrite list_lookup_imap.
    destruct (chunks !! S i) as [next |] eqn:Hnext.
    + cbn [fmap option_fmap option_map TextNode.text].
      pose proof (lookup_lt_Some _ _ _ Hnext) as Hlt'.
      assert ((i <? length chunks - 1)%nat = true) as -> by (apply Nat.ltb_lt; lia).
      replace (i + 1)%nat with (S i) by lia.
      by rewrite (list_lookup_total_correct _ _ _ Hnext).
    + cbn [fmap option_fmap option_map].
      apply lookup_ge_None in Hnext.
      assert ((i <? length chunks - 1)%nat = false) as -> by (apply Nat.ltb_ge; lia).
      done.
Qed.

End contextual_nodes.

Lemma chunk_document_with_context_nodes_sample :
  exists node,
    chunk_document_with_context sample_chunker sample_document None !! 3%nat = Some node /\
    let nodes := chunk_document_with_context sample_chunker sample_document None in
    let chunks := chunk_markdown sample_chunker sample_document None true in
    length nodes = length chunks /\
    (exists chunk, chunks !! 3%nat = Some chunk /\
       TextNode.text node = content chunk /\
       forall key, key <> "headers" -> key <> "previous_chunk" -> key <> "next_chunk" ->
         TextNode.metadata node !! key = NVal <$> metadata chunk !! key) /\
    TextNode.metadata node !! "headers" =
      Some (NHeaders (_get_headers_for_position (find sample_document (TextNode.text node))
                        (_extract_headers_with_positions sample_document))) /\
    (PyStr.contains (TextNode.text node) sample_document = false ->
     TextNode.metadata node !! "headers" = Some (NHeaders ∅)) /\
    TextNode.metadata node !! "previous_chunk" =
      Some (match nodes !! 2%nat with
            | Some prev => NText (take_chars 100 (TextNode.text prev))
            | None => NNone
            end) /\
    TextNode.metadata node !! "next_chunk" =
      Some (match nodes !! 4%nat with
            | Some next => NText (take_chars 100 (TextNode.text next))
            | None => NNone
            end).
Proof.
  destruct (chunk_document_with_context sample_chunker sample_document None !! 3%nat)
    as [node |] eqn:H; [| vm_compute in H; discriminate].
  exists node. split; [reflexivity |].
  exact (chunk_document_with_context_nodes sample_chunker sample_document None 3 node H).
Defined.

Example chunk_document_with_context_sample :
  map (fun node => (TextNode.text node, TextNode.metadata node !! "headers",
                    TextNode.metadata node !! "previous_chunk"))
      (chunk_document_with_context sample_chunker sample_document None) =
    [ ("# Guide", Some (NHeaders {[ "h1" := "Guide" ]}), Some NNone);
      ("Intro text.", Some (NHeaders {[ "h1" := "Guide" ]}), Some (NText "# Guide"));
      ("## Install", Some (NHeaders {[ "h1" := "Guide"; "h2" := "Install" ]}),
       Some (NText "Intro text."));
      (PyStr.join PyStr.LF ["```"; "pip install x"; "```"],
       Some (NHeaders {[ "h1" := "Guide"; "h2" := "Install" ]}), Some (NText "## Install"));
      ("Done.", Some (NHeaders {[ "h1" := "Guide"; "h2" := "Install" ]}),
       Some (NText (PyStr.join PyStr.LF ["```"; "pip install x"; "```"]))) ].
Proof. vm_compute. reflexivity. Qed.

(** ** What every chunk of [chunk_markdown] carries *)

Section chunk_invariants.
Import PyStr.

Lemma chunk_text_chunk self text meta c :
  c ∈ chunk_text self text meta ->
  tokens c = count_tokens self (content c) /\
  (forall key, key <> "chunk_index" -> key <> "chunk_count" ->
     metadata c !! key = default ∅ meta !! key) /\
  exists i n, metadata c !! "chunk_index" = Some (VInt i) /\
              metadata c !! "chunk_count" = Some (VInt n) /\ 0 <= i < n.
Proof.
  unfold chunk_text. destruct (strip text) as [|a s]; [by intros ?%elem_of_nil |].
  intros (i & node & -> & Hi)%elem_of_lookup_imap. cbn [tokens content metadata].
  apply lookup_lt_Some in Hi. split_and!.
  - done.
  - intros key H1 H2. by rewrite !lookup_insert_ne.
  - eexists _, _. split_and!.
    + rewrite lookup_insert_ne by done. apply lookup_insert_eq.
    + apply lookup_insert_eq.
    + lia.
    + lia.
Qed.

Lemma split_code_part_fence markdown text :
  (text, true) ∈ _split_preserving_code_blocks markdown -> is_fence text = true.
Proof.
  destruct (split_preserving_code_blocks_groups markdown) as (gs & Heq & _ & Hwg).
  rewrite Heq. intros ([g f] & [= -> <-] & Hin)%list_elem_of_fmap.
  destruct (well_grouped_code_head gs g Hin Hwg) as (o & rest & -> & Ho).
  by apply startswith_join.
Qed.

(** Every chunk that [chunk_markdown] returns, in either mode, has
    [tokens] equal to the token count of its content and the caller's
    metadata under every key but [chunk_index], [chunk_count] and
    [is_code_block]; it is either a code block kept whole, which starts
    with a fence, has at most [chunk_size] tokens and is marked
    [is_code_block], or a chunk of [chunk_text] with an index below its
    count. *)
Theorem chunk_markdown_chunk self markdown meta preserve_code_blocks c :
  c ∈ chunk_markdown self markdown meta preserve_code_blocks ->
  tokens c = count_tokens self (content c) /\
  (forall key, key <> "chunk_index" -> key <> "chunk_count" -> key <> "is_code_block" ->
     metadata c !! key = default ∅ meta !! key) /\
  ((preserve_code_blocks = true /\
    is_fence (content c) = true /\
    tokens c <= chunk_size self /\
    metadata c !! "is_code_block" = Some (VBool true)) \/
   (exists i n, metadata c !! "chunk_index" = Some (VInt i) /\
                metadata c !! "chunk_count" = Some (VInt n) /\ 0 <= i < n)).
Proof.
  assert (forall text, c ∈ chunk_text self text meta ->
    tokens c = count_tokens self (content c) /\
    (forall key, key <> "chunk_index" -> key <> "chunk_count" -> key <> "is_code_block" ->
       metadata c !! key = default ∅ meta !! key) /\
    ((preserve_code_blocks = true /\
      is_fence (content c) = true /\
      tokens c <= chunk_size self /\
      metadata c !! "is_code_block" = Some (VBool true)) \/
     (exists i n, metadata c !! "chunk_index" = Some (VInt i) /\
                  metadata c !! "chunk_count" = Some (VInt n) /\ 0 <= i < n))) as Htext.
  { intros text Hc. destruct (chunk_text_chunk self text meta c Hc) as (Ht & Hm & Hi).
    split_and!; [done | | by right]. intros key H1 H2 _. by apply Hm. }
  destruct preserve_code_blocks; [| apply Htext].
  rewrite chunk_markdown_parts. intros Hc.
  apply list_elem_of_In, in_concat in Hc as (chunks & Hchunks & Hc).
  apply in_map_iff in Hchunks as ([text is_code] & <- & Hpart).
  apply list_elem_of_In in Hc, Hpart. unfold chunk_part in Hc.
  destruct is_code; [| by eapply Htext].
  destruct (Z.leb_spec (count_tokens self text) (chunk_size self)) as [Hfit | Hbig];
    [| by eapply Htext].
  apply list_elem_of_singleton in Hc as ->. cbn [tokens content metadata code_block_chunk].
  split_and!; [done | |].
  - intros key _ _ H3. by rewrite lookup_insert_ne.
  - left. split_and!; [done | | done |].
    + by eapply split_code_part_fence.
    + apply lookup_insert_eq.
Qed.

Lemma chunk_markdown_chunk_sample :
  exists c,
    c ∈ chunk_markdown sample_chunker sample_document None true /\
    tokens c = count_tokens sample_chunker (content c) /\
    (forall key, key <> "chunk_index" -> key <> "chunk_count" -> key <> "is_code_block" ->
       metadata c !! key = (∅ : gmap string pyval) !! key) /\
    ((true = true /\
      is_fence (content c) = true /\
      tokens c <= chunk_size sample_chunker /\
      metadata c !! "is_code_block" = Some (VBool true)) \/
     (exists i n, metadata c !! "chunk_index" = Some (VInt i) /\
                  metadata c !! "chunk_count" = Some (VInt n) /\ 0 <= i < n)).
Proof.
  destruct (chunk_markdown sample_chunker sample_document None true !! 3%nat)
    as [c |] eqn:H; [| vm_compute in H; discriminate].
  apply list_elem_of_lookup_2 in H.
  exists c. split; [exact H |].
  exact (chunk_markdown_chunk sample_chunker sample_document None true c H).
Defined.

(** For a document without fence lines both modes of [chunk_markdown]
    return what [chunk_text] returns. *)
Theorem chunk_markdown_without_fences self markdown meta preserve_code_blocks :
  no_fence (split LF markdown) ->
  chunk_markdown self markdown meta preserve_code_blocks = chunk_text self markdown meta.
Proof.
  intros Hnf. destruct preserve_code_blocks; [| done].
  rewrite chunk_markdown_parts, split_no_fence by done.
  simpl. by rewrite (right_id_L [] (++)).
Qed.

Lemma chunk_markdown_without_fences_sample :
  let markdown := join LF ["First paragraph."; ""; "Second ``` paragraph."] in
  no_fence (split LF markdown) /\
  chunk_markdown sample_chunker markdown None true = chunk_text sample_chunker markdown None.
Proof.
  intros markdown.
  assert (no_fence (split LF markdown)) as H by (vm_compute; repeat constructor).
  split; [exact H |].
  exact (chunk_markdown_without_fences sample_chunker markdown None true H).
Defined.

End chunk_invariants.

(** ** A fence that is never closed *)

Section unclosed_fence.
Import PyStr.

Lemma split_no_sep sep s :
  contains (String sep "") s = false -> split sep s = [s].
Proof.
  induction s as [|c s IH]; [done |]. rewrite contains_char_cons.
  intros [Hc Hs]%orb_false_iff. cbn [split].
  rewrite Ascii.eqb_sym, Hc. by rewrite IH.
Qed.

Lemma split_app_sep sep s t :
  contains (String sep "") s = false ->
  split sep (s +:+ String sep t) = s :: split sep t.
Proof.
  induction s as [|c s IH].
  - intros _. rewrite sapp_nil_l. cbn [split]. by rewrite Ascii.eqb_refl.
  - rewrite contains_char_cons. intros [Hc Hs]%orb_false_iff.
    rewrite sapp_cons. cbn [split]. rewrite Ascii.eqb_sym, Hc. by rewrite IH.
Qed.

(** Splitting the joined lines gives the lines back, when no line holds a
    line feed. *)
Lemma split_join sep lines :
  lines <> [] ->
  Forall (fun line => contains (String sep "") line = false) lines ->
  split sep (join sep lines) = lines.
Proof.
  induction lines as [|x lines IH]; [done |]. intros _ Hall.
  inversion Hall as [|? ? Hx Hrest]; subst.
  destruct lines as [|y lines].
  - by apply split_no_sep.
  - rewrite join_cons by done. rewrite split_app_sep by done. by rewrite IH.
Qed.

Lemma split_loop_prefix pre : forall rest parts cur b,
  no_fence pre ->
  split_loop (pre ++ rest) parts cur b = split_loop rest parts (cur ++ pre) b.
Proof.
  induction pre as [|line pre IH]; intros rest parts cur b Hnf.
  - by rewrite (right_id_L [] (++)).
  - inversion Hnf as [|? ? Hl Hpre]; subst. cbn [app split_loop]. rewrite Hl.
    rewrite IH by done. by rewrite <- (assoc_L (++)).
Qed.

Lemma split_loop_rest lines parts cur b :
  no_fence lines -> cur ++ lines <> [] ->
  split_loop lines parts cur b = parts ++ [(join LF (cur ++ lines), b)].
Proof.
  intros Hnf Hne.
  rewrite <- (right_id_L [] (++) lines) at 1. rewrite split_loop_prefix by done.
  cbn [split_loop]. by destruct (cur ++ lines).
Qed.

(** When a document has one fence line and no second one, everything from
    the fence line to the end of the document is one code part: the prose
    before it is chunked as text, and the rest is kept as one code block if
    it fits in [chunk_size]. *)
Theorem unclosed_fence_rest_is_code self meta pre fence_open body :
  Forall (fun line => contains (String LF "") line = false) (pre ++ fence_open :: body) ->
  no_fence pre -> is_fence fence_open = true -> no_fence body ->
  let markdown := join LF (pre ++ fence_open :: body) in
  let code := join LF (fence_open :: body) in
  let prose := match pre with [] => [] | _ => [(join LF pre, false)] end in
  _split_preserving_code_blocks markdown = prose ++ [(code, true)] /\
  (count_tokens self code <= chunk_size self ->
   chunk_markdown self markdown meta true =
     concat (map (chunk_part self meta) prose) ++ [code_block_chunk self code meta]).
Proof.
  intros Hlf Hpre Hopen Hbody markdown code prose.
  assert (_split_preserving_code_blocks markdown = prose ++ [(code, true)]) as Hsplit.
  { unfold _split_preserving_code_blocks, markdown.
    rewrite split_join; [| by destruct pre | done].
    rewrite split_loop_prefix by done. cbn [app split_loop]. rewrite Hopen.
    rewrite split_loop_rest by done. unfold prose. by destruct pre. }
  split; [done |]. intros Hfit.
  rewrite chunk_markdown_parts, Hsplit, map_app, concat_app. f_equal.
  cbn [map concat chunk_part]. rewrite (proj2 (Z.leb_le _ _) Hfit).
  by rewrite (right_id_L [] (++)).
Qed.

Lemma unclosed_fence_rest_is_code_sample :
  let pre := ["Intro."; ""] in
  let body := ["x = 1"; ""; "More prose, taken as code."] in
  Forall (fun line => contains (String LF "") line = false) (pre ++ "```python" :: body) /\
  no_fence pre /\ is_fence "```python" = true /\ no_fence body /\
  let markdown := join LF (pre ++ "```python" :: body) in
  let code := join LF ("```python" :: body) in
  let prose := [(join LF pre, false)] in
  _split_preserving_code_blocks markdown = prose ++ [(code, true)] /\
  (count_tokens sample_chunker code <= chunk_size sample_chunker ->
   chunk_markdown sample_chunker markdown None true =
     concat (map (chunk_part sample_chunker None) prose) ++
     [code_block_chunk sample_chunker code None]).
Proof.
  intros pre body.
  assert (Forall (fun line => contains (String LF "") line = false)
            (pre ++ "```python" :: body)) as H1 by (repeat constructor).
  assert (no_fence pre) as H2 by (repeat constructor).
  assert (is_fence "```python" = true) as H3 by reflexivity.
  assert (no_fence body) as H4 by (repeat constructor).
  split_and!; [exact H1 | exact H2 | exact H3 | exact H4 |].
  exact (unclosed_fence_rest_is_code sample_chunker None pre "```python" body H1 H2 H3 H4).
Defined.

End unclosed_fence.

(** * Properties of the fetch functions ([src/utils/crawl.py]) *)

Section fetching.
Import Crawl.

Variable http : Http.
Variables (url : string) (timeout max_retries : Z).

Lemma requests_made_app log l :
  requests_made (log ++ l) = (requests_made log + requests_made l)%nat.
Proof. unfold requests_made. by rewrite filter_app, length_app. Qed.

Lemma backoff_from_step k n :
  backoff_from k (S (S n)) = Get :: Sleep (2 ^ (k + 1)) :: backoff_from (k + 1) (S n).
Proof. reflexivity. Qed.

(** The loop on responses known in advance: [n] requests are made when the
    first [n - 1] responses are retried and the [n]-th is not, or is the
    last one allowed. *)
Lemma requests_loop_backoff : forall (n fuel : nat) k log,
  (1 <= n <= fuel)%nat -> k + Z.of_nat n <= max_retries ->
  (forall i, (i < n - 1)%nat ->
     retried (client_get http url timeout (requests_made log + i)) = true) ->
  let last := client_get http url timeout (requests_made log + (n - 1)) in
  retried last = false \/ k + Z.of_nat n = max_retries ->
  requests_loop http url timeout max_retries fuel k log =
    Some (last, log ++ backoff_from k n).
Proof.
  induction n as [|n IH]; intros fuel k log [Hn Hfuel] Hk Hretried last Hlast; [lia |].
  destruct fuel as [|fuel]; [lia |]. cbn [requests_loop].
  assert ((k <? max_retries) = true) as -> by (apply Z.ltb_lt; lia).
  destruct n as [|n].
  - subst last. replace (requests_made log + (1 - 1))%nat with (requests_made log) in * by lia.
    rewrite !Z.geb_leb.
    destruct (client_get http url timeout (requests_made log)) as [text | [code | | |]];
      try done.
    + destruct (code =? 403) eqn:Hcode; [done |].
      destruct Hlast as [Hlast | Hlast]; [by cbn in Hlast; rewrite Hcode in Hlast |].
      by assert ((max_retries <=? k + 1) = true) as -> by (apply Z.leb_le; lia).
    + destruct Hlast as [Hlast | Hlast]; [done |].
      by assert ((max_retries <=? k + 1) = true) as -> by (apply Z.leb_le; lia).
  - pose proof (Hretried 0%nat ltac:(lia)) as H0.
    replace (requests_made log + 0)%nat with (requests_made log) in H0 by lia.
    rewrite !Z.geb_leb.
    assert ((max_retries <=? k + 1) = false) as Hmore by (apply Z.leb_gt; lia).
    assert (requests_loop http url timeout max_retries fuel (k + 1)
              ((log ++ [Get]) ++ [Sleep (2 ^ (k + 1))]) =
            Some (last, log ++ backoff_from k (S (S n)))) as Hrec.
    { rewrite backoff_from_step.
      assert (requests_made ((log ++ [Get]) ++ [Sleep (2 ^ (k + 1))]) =
              S (requests_made log)) as Hmade.
      { rewrite !requests_made_app. unfold requests_made. cbn.
        rewrite decide_True by done. rewrite decide_False by done. cbn. lia. }
      rewrite (IH fuel (k + 1) ((log ++ [Get]) ++ [Sleep (2 ^ (k + 1))])).
      - rewrite Hmade. subst last. f_equal. f_equal.
        + f_equal. lia.
        + by rewrite <- !(assoc_L (++)).
      - lia.
      - lia.
      - intros i Hi. rewrite Hmade.
        replace (S (requests_made log) + i)%nat with (requests_made log + S i)%nat by lia.
        apply Hretried. lia.
      - rewrite Hmade.
        replace (S (requests_made log) + (S n - 1))%nat
          with (requests_made log + (S (S n) - 1))%nat by lia.
        destruct Hlast as [Hlast | Hlast]; [by left | right; lia]. }
    destruct (client_get http url timeout (requests_made log)) as [text | [code | | |]];
      try done.
    + cbn in H0. apply negb_true_iff in H0. by rewrite H0, Hmore.
    + by rewrite Hmore.
Qed.

(** Among the responses to come there is a first one that ends the loop. *)
Lemma first_final (response : nat -> result) (limit : nat) :
  (1 <= limit)%nat ->
  exists n, (1 <= n <= limit)%nat /\
    (forall i, (i < n - 1)%nat -> retried (response i) = true) /\
    (retried (response (n - 1)%nat) = false \/ n = limit).
Proof.
  induction limit as [|limit IH]; [lia |]. intros _.
  destruct limit as [|limit].
  - exists 1%nat. split_and!; [lia | lia | intros i Hi; lia | by right].
  - destruct IH as (n & Hn & Hbefore & Hlast); [lia |].
    destruct Hlast as [Hlast | ->].
    + exists n. split_and!; [lia | lia | done | by left].
    + destruct (retried (response (S limit - 1)%nat)) eqn:Hr.
      * exists (S (S limit)). split_and!; [lia | lia | | by right].
        intros i Hi. destruct (decide (i = S limit - 1)%nat) as [-> | Hne]; [done |].
        apply Hbefore. lia.
      * exists (S limit). split_and!; [lia | lia | done | by left].
Qed.

Lemma slept_app log l : slept (log ++ l) = slept log + slept l.
Proof.
  induction log as [|ev log IH]; [done |]. cbn [app slept foldr].
  fold (slept (log ++ l)). fold (slept log). rewrite IH. destruct ev; lia.
Qed.

Lemma slept_backoff_from : forall (n : nat) k,
  0 <= k -> slept (backoff_from k (S n)) = 2 ^ (k + Z.of_nat (S n)) - 2 ^ (k + 1).
Proof.
  induction n as [|n IH]; intros k Hk.
  - cbn [backoff_from slept foldr]. replace (k + Z.of_nat 1) with (k + 1) by lia. lia.
  - rewrite backoff_from_step. cbn [slept foldr]. fold (slept (backoff_from (k + 1) (S n))).
    rewrite IH by lia.
    replace (k + 1 + Z.of_nat (S n)) with (k + Z.of_nat (S (S n))) by lia.
    replace (k + 1 + 1) with (Z.succ (k + 1)) by lia. rewrite Z.pow_succ_r by lia. lia.
Qed.

Lemma requests_made_backoff_from : forall (n : nat) k,
  requests_made (backoff_from k n) = n.
Proof.
  induction n as [|n IH]; intros k; [done |].
  destruct n as [|n]; [done |].
  rewrite backoff_from_step.
  change (Get :: Sleep (2 ^ (k + 1)) :: backoff_from (k + 1) (S n))
    with ([Get; Sleep (2 ^ (k + 1))] ++ backoff_from (k + 1) (S n)).
  rewrite requests_made_app, IH. done.
Qed.

(** The requests of [fetch_with_requests].  With at least one attempt
    allowed, it makes [n] requests, between one and [max_retries] of them;
    it sleeps 2, 4, ..., [2 ^ (n - 1)] seconds between them, [2 ^ n - 2]
    seconds in all; every response before the last was a retried failure;
    and the last response, which either is not retried or is that of the
    last attempt allowed, is what the call returns or raises. *)
Theorem fetch_with_requests_backoff (fuel : nat) (log : list event) :
  1 <= max_retries -> (Z.to_nat max_retries <= fuel)%nat ->
  exists n : nat,
    (1 <= n)%nat /\ Z.of_nat n <= max_retries /\
    (forall i, (i < n - 1)%nat ->
       retried (client_get http url timeout (requests_made log + i)) = true) /\
    let last := client_get http url timeout (requests_made log + (n - 1)) in
    (retried last = false \/ Z.of_nat n = max_retries) /\
    fetch_with_requests http url timeout max_retries fuel log = Some (last, log ++ backoff n) /\
    requests_made (log ++ backoff n) = (requests_made log + n)%nat /\
    slept (log ++ backoff n) = slept log + 2 ^ Z.of_nat n - 2.
Proof.
  intros Hmax Hfuel.
  destruct (first_final (fun i => client_get http url timeout (requests_made log + i))
              (Z.to_nat max_retries)) as (n & Hn & Hbefore & Hlast); [lia |].
  exists n. split; [lia |]. split; [lia |]. split; [done |]. intros last. split_and!.
  - destruct Hlast as [Hlast | Hlast]; [by left | right; lia].
  - unfold fetch_with_requests, backoff. apply requests_loop_backoff; [lia | lia | done |].
    destruct Hlast as [Hlast | Hlast]; [by left | right; lia].
  - unfold backoff. by rewrite requests_made_app, requests_made_backoff_from.
  - unfold backoff. rewrite slept_app. destruct n as [|n]; [lia |].
    rewrite slept_backoff_from by lia. rewrite Z.add_0_l. change (2 ^ (0 + 1)) with 2. lia.
Qed.

(** What [fetch_url] does without [use_playwright], with at least one
    attempt allowed.  It makes between one and [max_retries] requests with
    the sleeps of [fetch_with_requests].  When the last response is a page,
    it returns the page; when it is a status error other than 403, all the
    attempts are used up and the error is raised: the browser is started in
    neither case.  In every other case (a 403, a request error on the last
    attempt, any other exception) the browser is started once, and its
    result is the result. *)
Theorem fetch_url_fallback (wait_for_selector : option string)
    (fuel : nat) (log : list event) :
  1 <= max_retries -> (Z.to_nat max_retries <= fuel)%nat ->
  exists n : nat,
    (1 <= n)%nat /\ Z.of_nat n <= max_retries /\
    let last := client_get http url timeout (requests_made log + (n - 1)) in
    let run := fetch_url http url timeout max_retries false wait_for_selector fuel log in
    (succeeded last \/ status_failure last -> run = Some (last, log ++ backoff n)) /\
    (status_failure last -> Z.of_nat n = max_retries) /\
    (~ succeeded last -> ~ status_failure last ->
     run = Some (page_content http url timeout wait_for_selector,
                 log ++ backoff n ++ [Playwright])).
Proof.
  intros Hmax Hfuel.
  destruct (first_final (fun i => client_get http url timeout (requests_made log + i))
              (Z.to_nat max_retries)) as (n & Hn & Hbefore & Hlast); [lia |].
  exists n. split; [lia |]. split; [lia |]. intros last run.
  assert (fetch_with_requests http url timeout max_retries fuel log =
          Some (last, log ++ backoff n)) as Hrun.
  { unfold fetch_with_requests, backoff. apply requests_loop_backoff; [lia | lia | done |].
    destruct Hlast as [Hlast | Hlast]; [by left | right; lia]. }
  assert (run = match last with
                | Ok text => Some (Ok text, log ++ backoff n)
                | Err (HTTPStatusError status_code) =>
                    if status_code =? 403
                    then Some (fetch_with_playwright http url timeout wait_for_selector
                                 (log ++ backoff n))
                    else Some (Err (HTTPStatusError status_code), log ++ backoff n)
                | Err _ => Some (fetch_with_playwright http url timeout wait_for_selector
                                   (log ++ backoff n))
                end) as Hcases.
  { unfold run, fetch_url. rewrite Hrun. cbn [mbind option_bind]. done. }
  fold last in Hlast. clearbody last run. unfold fetch_with_playwright in Hcases.
  rewrite <- !(assoc_L (++)) in Hcases.
  split_and!.
  - intros [[text ->] | (code & -> & Hcode)]; [done |].
    by rewrite (proj2 (Z.eqb_neq _ _) Hcode) in Hcases.
  - intros (code & -> & Hcode). destruct Hlast as [Hlast | Hlast]; [| lia].
    cbn in Hlast. by rewrite (proj2 (Z.eqb_neq _ _) Hcode) in Hlast.
  - intros Hnot_ok Hnot_status. destruct last as [text | [code | | |]]; try done.
    + destruct Hnot_ok. by exists text.
    + destruct (code =? 403) eqn:Hcode; [done |].
      destruct Hnot_status. exists code. split; [done |]. by apply Z.eqb_neq.
Qed.

(** With no attempt allowed, [fetch_with_requests] makes no request and
    raises [RuntimeError], and [fetch_url] starts the browser at once. *)
Theorem fetch_url_without_attempts (wait_for_selector : option string)
    (fuel : nat) (log : list event) :
  max_retries <= 0 ->
  fetch_with_requests http url timeout max_retries (S fuel) log = Some (Err RuntimeError, log) /\
  fetch_url http url timeout max_retries false wait_for_selector (S fuel) log =
    Some (page_content http url timeout wait_for_selector, log ++ [Playwright]).
Proof.
  intros Hmax.
  assert (fetch_with_requests http url timeout max_retries (S fuel) log =
          Some (Err RuntimeError, log)) as Hrun.
  { unfold fetch_with_requests. cbn [requests_loop].
    by assert ((0 <? max_retries) = false) as -> by (apply Z.ltb_ge; lia). }
  split; [done |]. unfold fetch_url. by rewrite Hrun.
Qed.

End fetching.

Lemma fetch_with_requests_backoff_flaky :
  1 <= 3 /\ (Z.to_nat 3 <= 3)%nat /\
  exists n : nat,
    (1 <= n)%nat /\ Z.of_nat n <= 3 /\
    (forall i, (i < n - 1)%nat ->
       retried (Crawl.client_get flaky "https://x.dev/a" 30 (Crawl.requests_made [] + i)) = true) /\
    let last := Crawl.client_get flaky "https://x.dev/a" 30 (Crawl.requests_made [] + (n - 1)) in
    (retried last = false \/ Z.of_nat n = 3) /\
    Crawl.fetch_with_requests flaky "https://x.dev/a" 30 3 3 [] = Some (last, [] ++ backoff n) /\
    Crawl.requests_made ([] ++ backoff n) = (Crawl.requests_made [] + n)%nat /\
    slept ([] ++ backoff n) = slept [] + 2 ^ Z.of_nat n - 2.
Proof.
  split; [lia |]. split; [vm_compute; lia |].
  apply (fetch_with_requests_backoff flaky "https://x.dev/a" 30 3 3 []); [lia | vm_compute; lia].
Defined.

Example fetch_with_requests_flaky :
  Crawl.fetch_with_requests flaky "https://x.dev/a" 30 3 3 [] =
    Some (Crawl.Ok "<html>static</html>",
          [Crawl.Get; Crawl.Sleep 2; Crawl.Get; Crawl.Sleep 4; Crawl.Get]).
Proof. reflexivity. Qed.

Lemma fetch_url_fallback_unavailable :
  1 <= 3 /\ (Z.to_nat 3 <= 3)%nat /\
  exists n : nat,
    (1 <= n)%nat /\ Z.of_nat n <= 3 /\
    let last := Crawl.client_get unavailable "https://x.dev/a" 30 (Crawl.requests_made [] + (n - 1)) in
    let run := Crawl.fetch_url unavailable "https://x.dev/a" 30 3 false None 3 [] in
    (succeeded last \/ status_failure last -> run = Some (last, [] ++ backoff n)) /\
    (status_failure last -> Z.of_nat n = 3) /\
    (~ succeeded last -> ~ status_failure last ->
     run = Some (Crawl.page_content unavailable "https://x.dev/a" 30 None,
                 [] ++ backoff n ++ [Crawl.Playwright])).
Proof.
  split; [lia |]. split; [vm_compute; lia |].
  apply (fetch_url_fallback unavailable "https://x.dev/a" 30 3 None 3 []); [lia | vm_compute; lia].
Defined.

Example fetch_url_unavailable :
  Crawl.fetch_url unavailable "https://x.dev/a" 30 3 false None 3 [] =
    Some (Crawl.Err (Crawl.HTTPStatusError 503),
          [Crawl.Get; Crawl.Sleep 2; Crawl.Get; Crawl.Sleep 4; Crawl.Get]).
Proof. reflexivity. Qed.

Lemma fetch_url_without_attempts_flaky :
  0 <= 0 /\
  Crawl.fetch_with_requests flaky "https://x.dev/a" 30 0 1 [] =
    Some (Crawl.Err Crawl.RuntimeError, []) /\
  Crawl.fetch_url flaky "https://x.dev/a" 30 0 false None 1 [] =
    Some (Crawl.page_content flaky "https://x.dev/a" 30 None, [] ++ [Crawl.Playwright]).
Proof.
  split; [lia |].
  apply (fetch_url_without_attempts flaky "https://x.dev/a" 30 0 None 0 []). lia.
Defined.

(** * Properties of the chunk identifiers ([src/core/indexer.py]) *)

Section chunk_ids.
Import PyStr.

Variable compute_hash : string -> string.

Lemma pretty_N_go_chars (p : ascii -> bool) :
  (forall d, p (pretty_N_char d) = true) ->
  forall x s, all_chars p s = true -> all_chars p (pretty_N_go x s) = true.
Proof.
  intros Hp x. induction (N.lt_wf_0 x) as [x _ IH]. intros s Hs.
  destruct (decide (x = 0)%N) as [-> | Hx]; [by rewrite pretty_N_go_0 |].
  rewrite pretty_N_go_step by lia. apply IH; [apply N.div_lt; lia |].
  cbn [all_chars]. by rewrite Hp, Hs.
Qed.

Lemma pretty_Z_no_underscore (z : Z) : all_chars not_underscore (pretty z) = true.
Proof.
  assert (forall d, not_underscore (pretty_N_char d) = true) as Hd.
  { intros d. unfold pretty_N_char. by repeat case_match. }
  assert (forall x : positive, all_chars not_underscore (pretty x) = true) as Hpos.
  { intros x. unfold pretty, pretty_positive, pretty, pretty_N.
    destruct (decide (N.pos x = 0%N)); [done |]. by apply pretty_N_go_chars. }
  destruct z as [| x | x]; [done | apply Hpos |].
  unfold pretty, pretty_Z. rewrite sapp_cons, sapp_nil_l. cbn [all_chars].
  by rewrite (Hpos x).
Qed.

(** Two texts without the separator that are followed by the separator
    in the same text are the same. *)
Lemma before_separator (p : ascii -> bool) c : p c = false ->
  forall a b x y,
    all_chars p a = true -> all_chars p b = true ->
    a +:+ String c x = b +:+ String c y -> a = b /\ x = y.
Proof.
  intros Hc. induction a as [|u a IH]; intros [|v b] x y Ha Hb Heq.
  - rewrite !sapp_nil_l in Heq. by injection Heq.
  - rewrite sapp_nil_l, sapp_cons in Heq. injection Heq as <- _.
    cbn [all_chars] in Hb. by rewrite Hc in Hb.
  - rewrite sapp_nil_l, sapp_cons in Heq. injection Heq as -> _.
    cbn [all_chars] in Ha. by rewrite Hc in Ha.
  - rewrite !sapp_cons in Heq. injection Heq as -> Heq.
    cbn [all_chars] in Ha, Hb.
    apply andb_true_iff in Ha as [_ Ha]. apply andb_true_iff in Hb as [_ Hb].
    destruct (IH b x y Ha Hb Heq) as [-> ->]. done.
Qed.

(** A chunk of [chunk_markdown] is a code block kept whole or a chunk of
    [chunk_text] for some part of the document. *)
Lemma chunk_markdown_elem self markdown meta preserve_code_blocks c :
  c ∈ chunk_markdown self markdown meta preserve_code_blocks ->
  (exists text, c = code_block_chunk self text meta) \/
  (exists text, c ∈ chunk_text self text meta).
Proof.
  destruct preserve_code_blocks; [| by right; eexists].
  rewrite chunk_markdown_parts. intros Hc.
  apply list_elem_of_In, in_concat in Hc as (chunks & Hchunks & Hc).
  apply in_map_iff in Hchunks as ([text is_code] & <- & Hpart).
  apply list_elem_of_In in Hc. unfold chunk_part in Hc.
  destruct is_code; [| by right; eexists].
  destruct (count_tokens self text <=? chunk_size self); [| by right; eexists].
  apply list_elem_of_singleton in Hc as ->. left. by eexists.
Qed.

Lemma chunk_text_elem_metadata self text meta c :
  c ∈ chunk_text self text meta ->
  metadata c !! "url" = default ∅ meta !! "url" /\
  exists i, metadata c !! "chunk_index" = Some (VInt i).
Proof.
  unfold chunk_text. destruct (strip text) as [|a s]; [by intros ?%elem_of_nil |].
  intros (i & node & -> & Hi)%elem_of_lookup_imap. cbn [metadata]. split.
  - by rewrite !lookup_insert_ne.
  - eexists. rewrite lookup_insert_ne by done. apply lookup_insert_eq.
Qed.

(** The identifier of a chunk of a document, at any place of the list. *)
Lemma generate_chunk_id_of_document self markdown meta preserve_code_blocks c index :
  default ∅ meta !! "chunk_index" = None ->
  c ∈ chunk_markdown self markdown meta preserve_code_blocks ->
  exists i,
    default (VInt index) (metadata c !! "chunk_index") = VInt i /\
    _generate_chunk_id compute_hash c index =
      pretty i +:+ "_" +:+
      take_chars 8 (compute_hash
        (py_str (default (VStr "unknown") (default ∅ meta !! "url")) +:+ "#" +:+ pretty i)).
Proof.
  intros Hmeta Hc. unfold _generate_chunk_id, chunk_metadata.
  destruct (chunk_markdown_elem _ _ _ _ _ Hc) as [[text ->] | [text Hin]].
  - cbn [metadata code_block_chunk]. rewrite !lookup_insert_ne by done.
    rewrite Hmeta. cbn [default]. by exists index.
  - destruct (chunk_text_elem_metadata _ _ _ _ Hin) as (-> & i & ->).
    cbn [default]. by exists i.
Qed.

(** The identifiers within one document.  When the caller's metadata has
    no [chunk_index], two chunks of the document get the same identifier
    exactly when they have the same index, where the index of a chunk is
    its [chunk_index] or, for a code block kept whole, which has none, its
    place in the list of chunks.  So the identifier neither depends on the
    content of a chunk nor, for a chunk of [chunk_text], on its place in
    the list. *)
Theorem generate_chunk_id_same_document self markdown meta preserve_code_blocks
    c c' index index' :
  default ∅ meta !! "chunk_index" = None ->
  c ∈ chunk_markdown self markdown meta preserve_code_blocks ->
  c' ∈ chunk_markdown self markdown meta preserve_code_blocks ->
  _generate_chunk_id compute_hash c index = _generate_chunk_id compute_hash c' index' <->
  default (VInt index) (metadata c !! "chunk_index") =
    default (VInt index') (metadata c' !! "chunk_index").
Proof.
  intros Hmeta Hc Hc'.
  destruct (generate_chunk_id_of_document _ _ _ _ _ index Hmeta Hc) as (i & -> & ->).
  destruct (generate_chunk_id_of_document _ _ _ _ _ index' Hmeta Hc') as (i' & -> & ->).
  split.
  - intros Heq. change ("_" +:+ ?s) with (String "_" s) in Heq.
    apply (before_separator not_underscore "_") in Heq as [Heq _];
      [| done | apply pretty_Z_no_underscore..].
    by apply (inj pretty) in Heq as ->.
  - by intros [= ->].
Qed.

End chunk_ids.

Lemma generate_chunk_id_same_document_sample :
  exists c c',
    let chunks := chunk_markdown sample_chunker sample_document (Some page_metadata) true in
    chunks !! 0%nat = Some c /\ chunks !! 4%nat = Some c' /\
    default ∅ (Some page_metadata) !! "chunk_index" = None /\
    c ∈ chunks /\ c' ∈ chunks /\
    (_generate_chunk_id reversed c 0 = _generate_chunk_id reversed c' 4 <->
     default (VInt 0) (metadata c !! "chunk_index") =
       default (VInt 4) (metadata c' !! "chunk_index")).
Proof.
  destruct (chunk_markdown sample_chunker sample_document (Some page_metadata) true !! 0%nat)
    as [c |] eqn:H; [| vm_compute in H; discriminate].
  destruct (chunk_markdown sample_chunker sample_document (Some page_metadata) true !! 4%nat)
    as [c' |] eqn:H'; [| vm_compute in H'; discriminate].
  assert (default ∅ (Some page_metadata) !! "chunk_index" = None) as Hmeta by reflexivity.
  pose proof (list_elem_of_lookup_2 _ _ _ H) as Hc.
  pose proof (list_elem_of_lookup_2 _ _ _ H') as Hc'.
  exists c, c'. intros chunks. split_and!; [done | done | exact Hmeta | exact Hc | exact Hc' |].
  exact (generate_chunk_id_same_document reversed sample_chunker sample_document
           (Some page_metadata) true c c' 0 4 Hmeta Hc Hc').
Defined.

(** In the sample document the first chunk of the prose before the code
    block and the first chunk of the prose after it get one identifier. *)
Example generate_chunk_id_sample :
  (fun chunks => imap (fun i c => _generate_chunk_id reversed c (Z.of_nat i)) chunks)
    (chunk_markdown sample_chunker sample_document (Some page_metadata) true) =
  ["0_0#a/ved."; "1_1#a/ved."; "2_2#a/ved."; "3_3#a/ved."; "0_0#a/ved."].
Proof. vm_compute. reflexivity. Qed.
